(** * PDFiG object store: cross-reference table, allocator and index writer

    A shallow embedding of the [file] type of package [pdf] (the
    implementation of the [File] interface that writes a PDF file): the
    cross-reference table [xref], the object-number allocator
    ([ReserveObjectNumber], [DeleteObject]), the write path
    ([AddObjectAt], [AddObject]), [Close], and the cross-reference writer
    ([nextSegment], [writeXref], [xrefEntry.Serialize]).

    Conventions of the embedding:
    - Go's unsigned integers are [N]; array indices and loop counters are
      [nat].  The one narrowing conversion of the source,
      [uint32(nextUnused)], is written out as a remainder modulo [2^32].
    - The table holds pointers to entries which the source mutates in
      place; an entry is addressed by its index and every assignment through
      such a pointer is an update of the table at that index, in the order
      of the source's statements, so that aliasing (index [0] against the
      entry being deleted) is kept.
    - A Go [panic] is a value of type [panic]; an operation that may panic
      returns a [result]. *)

From Stdlib Require Import NArith Ascii String Lia Sorted.
From stdpp Require Import base tactics option list.

Local Open Scope list_scope.
Local Open Scope string_scope.
Local Open Scope N_scope.

(** ** Panics and results *)

Inductive panic : Type :=
| AlreadyWritten      (* panic ("An object has already been written with this number") *)
| GenerationMismatch  (* panic ("Generation number mismatch") *)
| IndexOutOfRange.    (* containers.Array.At called with an index >= Size() *)

Inductive result (A : Type) : Type :=
| Ok (a : A)
| Panic (p : panic).

Arguments Ok {A} a.
Arguments Panic {A} p.

Definition bind {A B : Type} (r : result A) (k : A -> result B) : result B :=
  match r with
  | Ok a => k a
  | Panic p => Panic p
  end.

Notation "'do' x <- r ; k" := (bind r (fun x => k))
  (at level 10, x name, r at level 100, k at level 200, only parsing).

Definition succeeds {A : Type} (r : result A) : Prop := exists a, r = Ok a.
Definition fails {A : Type} (r : result A) : Prop := exists p, r = Panic p.

(** ** Data model *)

(** [ObjectNumber]: [number uint32], [generation uint16].  The second field
    is called [objGeneration] here because record fields share one name
    space with those of [xrefEntry]. *)
Record ObjectNumber : Type := NewObjectNumber {
  number : N;
  objGeneration : N
}.

(** [xrefEntry]: [byteOffset uint64], [generation uint16], [inUse], [dirty]. *)
Record xrefEntry : Type := mkXrefEntry {
  byteOffset : N;
  generation : N;
  inUse : bool;
  dirty : bool
}.

Definition setByteOffset (v : N) (e : xrefEntry) : xrefEntry :=
  mkXrefEntry v (generation e) (inUse e) (dirty e).
Definition setGeneration (v : N) (e : xrefEntry) : xrefEntry :=
  mkXrefEntry (byteOffset e) v (inUse e) (dirty e).
Definition setInUse (v : bool) (e : xrefEntry) : xrefEntry :=
  mkXrefEntry (byteOffset e) (generation e) v (dirty e).
Definition setDirty (v : bool) (e : xrefEntry) : xrefEntry :=
  mkXrefEntry (byteOffset e) (generation e) (inUse e) v.

(** The [Object] interface, as far as [file] uses it: [Serialize] writes the
    object's bytes to a writer. *)
Record Object : Type := mkObject { Serialize : string }.

(** [Null.Serialize] writes ["null"]. *)
Definition Null : Object := mkObject "null".

(** [*os.File]: the bytes in the file and whether the handle is open. *)
Record osFile : Type := mkOsFile {
  contents : string;
  isOpen : bool
}.

(** [file]: the table [xref], the handle [file] (here [osfile]) and the
    buffered [writer] around it.  The writer is modelled by the bytes it has
    accepted that have not reached the handle, and in the model they reach the
    handle at a [Flush] only.  A [bufio.Writer] also writes to the handle by
    itself whenever its buffer of 4096 bytes is full, and once a write to the
    handle has failed it keeps the error and accepts nothing more.  So on an
    open handle the model gives the bytes written so far, [contents] followed
    by [writer], and the bytes of the file after a [Flush], but not how the
    bytes are split between the file and the buffer before it; on a closed
    handle it gives [contents], which no call changes, but not [writer].  The
    properties about the bytes of the file are stated on these quantities.
    The field [trailerDictionary] is set by [NewFile] and used by none of the
    operations below. *)
Record file : Type := mkFile {
  xref : list xrefEntry;
  osfile : osFile;
  writer : string
}.

Definition setXref (x : list xrefEntry) (f : file) : file :=
  mkFile x (osfile f) (writer f).

(** ** The array of package [containers] *)

(** Modelled from the spec: [containers.Array] (package [containers] is not
    among the sources) is the "ordered, growable sequence of fixed-shape
    records", "a plain growable array": [Size] is its length, [PushBack]
    appends at the end, [At] yields the element at an index below [Size].
    [At] beyond [Size] is taken to panic, as indexing a Go slice does. *)
Definition Size (x : list xrefEntry) : nat := length x.
Definition PushBack (x : list xrefEntry) (e : xrefEntry) : list xrefEntry := x ++ [e].
Definition At (x : list xrefEntry) (i : nat) : result xrefEntry :=
  match x !! i with
  | Some e => Ok e
  | None => Panic IndexOutOfRange
  end.

(** An assignment through the pointer [*x.At(i)]. *)
Definition assign (i : nat) (upd : xrefEntry -> xrefEntry) (x : list xrefEntry)
  : list xrefEntry := alter upd i x.

(** ** Text output *)

Definition nl : string := String "010"%char EmptyString.

Definition digit (d : N) : ascii := ascii_of_N (48 + d).

(** The decimal digits of [n], most significant first, put in front of
    [acc].  [fuel] bounds the number of digits. *)
Fixpoint digits (fuel : nat) (n : N) (acc : string) : string :=
  match fuel with
  | O => acc
  | S fuel' =>
      let acc' := String (digit (n mod 10)) acc in
      if n <? 10 then acc' else digits fuel' (n / 10) acc'
  end.

(** The verb [%d] on an unsigned integer. *)
Definition decimal (n : N) : string := digits (S (N.to_nat (N.log2 n))) n "".

Fixpoint zeros (k : nat) : string :=
  match k with
  | O => ""
  | S k' => String "0"%char (zeros k')
  end.

(** The verb [%0wd]: zeros on the left up to width [w], never truncating. *)
Definition decimal0 (w : nat) (n : N) : string :=
  let s := decimal n in zeros (w - String.length s)%nat ++ s.

(** [bufio.Writer.WriteString] and [fmt.Fprintf] on [f.writer]: the bytes
    are added to those written so far.  That a full buffer is written to the
    handle at once is left out. *)
Definition WriteString (s : string) (f : file) : file :=
  mkFile (xref f) (osfile f) (writer f ++ s).

(** [bufio.Writer.Flush]: the pending bytes go to the handle.  On a closed
    handle the write fails, nothing reaches the file, and the source drops the
    error; that the writer then refuses every later write is left out, so
    [writer] says nothing of the program once the handle is closed. *)
Definition Flush (f : file) : file :=
  if isOpen (osfile f)
  then mkFile (xref f) (mkOsFile (contents (osfile f) ++ writer f) true) ""
  else f.

(** [f.file.Seek(0,1)], the current offset: the handle was created empty and
    is only appended to, so it is the number of bytes in the file.  On a
    closed handle [Seek] returns [0] and an error that the source drops. *)
Definition Seek (f : file) : N :=
  if isOpen (osfile f) then N.of_nat (String.length (contents (osfile f))) else 0.

(** [f.file.Close()]. *)
Definition closeHandle (f : file) : file :=
  mkFile (xref f) (mkOsFile (contents (osfile f)) false) (writer f).

(** ** Serializing the cross-reference table *)

(** [xrefEntry.Serialize]: ["%010d %05d %c \n"]. *)
Definition xrefEntry_Serialize (entry : xrefEntry) : string :=
  decimal0 10 (byteOffset entry) ++ " " ++
  decimal0 5 (generation entry) ++ " " ++
  String (if inUse entry then "n"%char else "f"%char) EmptyString ++ " " ++ nl.

(** The loop [for ; i < x.Size() && cond(x.At(i)); i++ {}]: the index at
    which it stops.  It makes at most [Size - i] steps, which [fuel] counts. *)
Fixpoint scan (cond : xrefEntry -> bool) (x : list xrefEntry) (fuel i : nat) : nat :=
  match fuel with
  | O => i
  | S fuel' =>
      match x !! i with
      | Some e => if cond e then scan cond x fuel' (S i) else i
      | None => i
      end
  end.

Definition scanFrom (cond : xrefEntry -> bool) (x : list xrefEntry) (i : nat) : nat :=
  scan cond x (Size x - i)%nat i.

(** [nextSegment]: skip the entries that are not dirty, then count the dirty
    ones. *)
Definition nextSegment (x : list xrefEntry) (start : nat) : nat * nat :=
  let nextStart := scanFrom (fun e => negb (dirty e)) x start in
  let stop := scanFrom dirty x nextStart in
  (nextStart, (stop - nextStart)%nat).

(** The inner loop of [writeXref]: [for i:=s; i<s+l; i++] serializes the
    entry at [i]. *)
Fixpoint writeEntries (x : list xrefEntry) (i count : nat) (f : file) : result file :=
  match count with
  | O => Ok f
  | S count' =>
      do e <- At x i;
      writeEntries x (S i) count' (WriteString (xrefEntry_Serialize e) f)
  end.

(** The outer loop of [writeXref], entered with the segment [(s, l)].
    [None] when [fuel] iterations did not end the loop. *)
Fixpoint writeSegments (fuel : nat) (x : list xrefEntry) (s l : nat) (f : file)
  : option (result file) :=
  if (Size x <=? s)%nat then Some (Ok f)
  else
    match fuel with
    | O => None
    | S fuel' =>
        let f1 := WriteString
                    (decimal (N.of_nat s) ++ " " ++ decimal (N.of_nat l) ++ nl) f in
        match writeEntries x s l f1 with
        | Ok f2 =>
            let '(s', l') := nextSegment x (s + l)%nat in
            writeSegments fuel' x s' l' f2
        | Panic p => Some (Panic p)
        end
    end.

Definition writeXref_fuel (fuel : nat) (f : file) : option (result file) :=
  let f1 := WriteString ("xref" ++ nl) f in
  let '(s, l) := nextSegment (xref f) 0 in
  writeSegments fuel (xref f) s l f1.

(** [writeXref]: the keyword line, then one header and its entries for every
    segment.  The outer loop advances by at least one entry per iteration
    ([writeXref_returns] below), so [Size + 1] iterations are enough. *)
Definition writeXref (f : file) : option (result file) :=
  writeXref_fuel (S (Size (xref f))) f.

(** ** Operations of [file] *)

Definition writePdfHeader (f : file) : file := WriteString ("%PDF-1.4" ++ nl) f.

Definition createInitialXref (f : file) : file :=
  setXref (PushBack (xref f) (mkXrefEntry 0 65535 false true)) f.

(** [NewFile], on the path where [os.Create] succeeds: an empty file, an
    empty table; the header is written and flushed, slot 0 is created. *)
Definition NewFile : file :=
  let result := mkFile [] (mkOsFile "" true) "" in
  let result := writePdfHeader result in
  let result := createInitialXref result in
  Flush result.

Definition Close (f : file) : option (result file) :=
  match writeXref f with
  | Some (Ok f1) => Some (Ok (closeHandle (Flush f1)))
  | Some (Panic p) => Some (Panic p)
  | None => None
  end.

Definition AddObjectAt (f : file) (object : ObjectNumber) (o : Object) : result file :=
  let i := N.to_nat (number object) in
  do entry <- At (xref f) i;
  if negb (byteOffset entry =? 0) then Panic AlreadyWritten
  else if negb (generation entry =? objGeneration object) then Panic GenerationMismatch
  else
    let f := Flush f in
    let position := Seek f in
    let f := setXref (assign i (setByteOffset position) (xref f)) f in
    let f := WriteString (decimal (number object) ++ " " ++
                          decimal (objGeneration object) ++ " obj" ++ nl) f in
    let f := WriteString (Serialize o) f in
    let f := WriteString (nl ++ "endobj" ++ nl) f in
    Ok f.

Definition DeleteObject (f : file) (object : ObjectNumber) : result file :=
  let i := N.to_nat (number object) in
  do entry <- At (xref f) i;
  if negb (objGeneration object =? generation entry) then Panic GenerationMismatch
  else
    do head <- At (xref f) 0;
    let x := assign i (setByteOffset (byteOffset head)) (xref f) in
    let x := assign 0 (setByteOffset (number object)) x in
    (* Increment the generation count for the next use. *)
    let x := assign i (fun e => if generation e <? 65535
                                then setGeneration (generation e + 1) e else e) x in
    let x := assign i (setInUse false) x in
    let x := assign i (setDirty true) x in
    Ok (setXref x f).

(** [uint32(nextUnused)]. *)
Definition uint32 (n : nat) : N := N.of_nat n mod 2 ^ 32.

(** [ReserveObjectNumber] ignores its argument.  The search starts at index 1
    and goes on while the entry is below generation 65535 and in use. *)
Definition ReserveObjectNumber (f : file) (o : Object) : result (file * ObjectNumber) :=
  let nextUnused :=
    scanFrom (fun e => (generation e <? 65535) && inUse e) (xref f) 1 in
  if (Size (xref f) <=? nextUnused)%nat then
    (* Create a new xref entry *)
    let x := PushBack (xref f) (mkXrefEntry 0 0 true true) in
    Ok (setXref x f, NewObjectNumber (uint32 nextUnused) 0)
  else
    do entry <- At (xref f) nextUnused;
    do head <- At (xref f) 0;
    (* Adjust link in head of free list *)
    let x := assign 0 (setByteOffset (byteOffset entry)) (xref f) in
    do entry' <- At x nextUnused;
    let generation := generation entry' in
    let x := assign nextUnused (setInUse true) x in
    Ok (setXref x f, NewObjectNumber (uint32 nextUnused) generation).

Definition AddObject (f : file) (object : Object) : result (file * ObjectNumber) :=
  do r <- ReserveObjectNumber f object;
  let '(f, objectNumber) := r in
  do f <- AddObjectAt f objectNumber object;
  Ok (f, objectNumber).

(** ** Reachable states *)

(** The states of a [file] that its public methods produce from [NewFile].
    A call that panics before it changed anything leaves the state it was
    made in; [AddObject] is [ReserveObjectNumber] followed by [AddObjectAt],
    so its states, also the one it leaves when its second half panics, are
    among these. *)
Inductive reachable : file -> Prop :=
| reach_NewFile : reachable NewFile
| reach_Reserve f o f' on :
    reachable f -> ReserveObjectNumber f o = Ok (f', on) -> reachable f'
| reach_AddObjectAt f on o f' :
    reachable f -> AddObjectAt f on o = Ok f' -> reachable f'
| reach_DeleteObject f on f' :
    reachable f -> DeleteObject f on = Ok f' -> reachable f'
| reach_Close f f' :
    reachable f -> Close f = Some (Ok f') -> reachable f'.

(** A call of one of the methods, and running a list of calls; [None] when a
    call panics. *)
Inductive call : Type :=
| CallReserve (o : Object)
| CallAddObjectAt (on : ObjectNumber) (o : Object)
| CallAddObject (o : Object)
| CallDeleteObject (on : ObjectNumber)
| CallClose.

Definition step (f : file) (c : call) : option file :=
  match c with
  | CallReserve o =>
      match ReserveObjectNumber f o with Ok (f', _) => Some f' | Panic _ => None end
  | CallAddObjectAt on o =>
      match AddObjectAt f on o with Ok f' => Some f' | Panic _ => None end
  | CallAddObject o =>
      match AddObject f o with Ok (f', _) => Some f' | Panic _ => None end
  | CallDeleteObject on =>
      match DeleteObject f on with Ok f' => Some f' | Panic _ => None end
  | CallClose =>
      match Close f with Some (Ok f') => Some f' | _ => None end
  end.

Fixpoint run (f : file) (cs : list call) : option file :=
  match cs with
  | [] => Some f
  | c :: cs' =>
      match step f c with
      | Some f' => run f' cs'
      | None => None
      end
  end.

(** * Further parts of package [pdf] *)

(** ** [TestFile] *)

(** [TestFile], "a simple file implementing the File interface for use in
    unit tests": [nextObjectNumber uint32], [nextGenerationNumber uint16]. *)
Record TestFile : Type := mkTestFile {
  nextObjectNumber : N;
  nextGenerationNumber : N
}.

Definition NewTestFile (obj gen : N) : TestFile := mkTestFile obj gen.

(** [Close], [AddObjectAt] and [DeleteObject] of [TestFile] have empty
    bodies. *)
Definition TestFile_Close (f : TestFile) : TestFile := f.
Definition TestFile_AddObjectAt (f : TestFile) (on : ObjectNumber) (o : Object) : TestFile := f.
Definition TestFile_DeleteObject (f : TestFile) (on : ObjectNumber) : TestFile := f.

(** [ReserveObjectNumber] of [TestFile]: both counters are incremented, each
    in its own width. *)
Definition TestFile_ReserveObjectNumber (f : TestFile) (o : Object)
  : TestFile * ObjectNumber :=
  let result := NewObjectNumber (nextObjectNumber f) (nextGenerationNumber f) in
  (mkTestFile ((nextObjectNumber f + 1) mod 2 ^ 32)
              ((nextGenerationNumber f + 1) mod 2 ^ 16),
   result).

Definition TestFile_AddObject (f : TestFile) (object : Object) : TestFile * ObjectNumber :=
  let '(f, objectNumber) := TestFile_ReserveObjectNumber f object in
  let f := TestFile_AddObjectAt f objectNumber object in
  (f, objectNumber).

(** A list of calls on a [TestFile], and the object numbers that its
    reservations return, in the order of the calls. *)
Fixpoint TestFile_run (f : TestFile) (cs : list call) : TestFile * list ObjectNumber :=
  match cs with
  | [] => (f, [])
  | CallReserve o :: cs' =>
      let '(f1, on) := TestFile_ReserveObjectNumber f o in
      let '(f2, ons) := TestFile_run f1 cs' in (f2, on :: ons)
  | CallAddObject o :: cs' =>
      let '(f1, on) := TestFile_AddObject f o in
      let '(f2, ons) := TestFile_run f1 cs' in (f2, on :: ons)
  | CallAddObjectAt on o :: cs' => TestFile_run (TestFile_AddObjectAt f on o) cs'
  | CallDeleteObject on :: cs' => TestFile_run (TestFile_DeleteObject f on) cs'
  | CallClose :: cs' => TestFile_run (TestFile_Close f) cs'
  end.

(** ** Character classes *)

(** Bytes are numbers below 256.  The code points of a string, as [range]
    yields them (the two strings below hold ASCII only). *)
Definition codes (s : string) : list N := map N_of_ascii (list_ascii_of_string s).

Definition regularCharacter : N := 0.
Definition whiteSpaceCharacter : N := 1.
Definition delimiterCharacter : N := 2.

(** ["\000\t\n\f\r "] *)
Definition whiteSpaceCharacters : string :=
  String "000" (String "009" (String "010" (String "012" (String "013" " ")))).

Definition delimiterCharacters : string := "%()/<>[]{}".

(** The table [characterTypes [256]byte] after [init]: every entry set to
    [regularCharacter], then the entries of the white-space characters, then
    those of the delimiters. *)
Definition characterTypes : list N :=
  let t := replicate 256 regularCharacter in
  let t := foldl (fun t w => <[N.to_nat w := whiteSpaceCharacter]> t) t
                 (codes whiteSpaceCharacters) in
  foldl (fun t d => <[N.to_nat d := delimiterCharacter]> t) t
        (codes delimiterCharacters).

(** [characterTypes[b] == class]; a byte is always within the table. *)
Definition hasType (class : N) (b : N) : bool :=
  match characterTypes !! N.to_nat b with
  | Some t => t =? class
  | None => false
  end.

Definition IsWhiteSpace (b : N) : bool := hasType whiteSpaceCharacter b.
Definition IsDelimiter (b : N) : bool := hasType delimiterCharacter b.
Definition IsRegular (b : N) : bool := hasType regularCharacter b.

(** ['a'] is 97, ['z'] 122, ['A'] 65, ['Z'] 90, ['0'] 48, ['9'] 57, ['7'] 55,
    ['f'] 102, ['F'] 70. *)
Definition IsAlpha (b : N) : bool :=
  ((97 <=? b) && (b <=? 122)) || ((65 <=? b) && (b <=? 90)).

Definition IsDigit (b : N) : bool := (48 <=? b) && (b <=? 57).

Definition IsOctalDigit (b : N) : bool := (48 <=? b) && (b <=? 55).

Definition IsHexDigit (b : N) : bool :=
  ((48 <=? b) && (b <=? 57)) || ((97 <=? b) && (b <=? 102)) || ((65 <=? b) && (b <=? 70)).

(** [HexDigit]; [None] is [panic("value out of range")].  The additions are
    those of [byte], modulo 256. *)
Definition HexDigit (b : N) : option N :=
  if b <? 10 then Some ((b + 48) mod 256)
  else if b <? 16 then Some (((b - 10) + 65) mod 256)
  else None.

(** ** [Null] and [Array] *)

(** The objects whose types are among the sources: the null object and
    arrays of objects.  An [Array] holds its elements in an array of package
    [containers], here the list of the elements. *)
#[warnings="-register-all"]
Inductive pdfObject : Type :=
| NullObject
| ArrayObject (array : list pdfObject).

Definition NewArray : list pdfObject := [].

(** [Array.Add], [Array.Size]. *)
Definition Array_Add (a : list pdfObject) (o : pdfObject) : list pdfObject := a ++ [o].
Definition Array_Size (a : list pdfObject) : nat := length a.

(** The loop of [Array.Serialize] from index [i] on, [rest] being the
    elements at [i] and after: a space before every element but the first,
    then the element. *)
Definition serializeFrom (serialize : pdfObject -> string)
  : nat -> list pdfObject -> string :=
  fix loop (i : nat) (rest : list pdfObject) : string :=
    match rest with
    | [] => ""
    | o :: rest' =>
        (if (i =? 0)%nat then "" else " ") ++ serialize o ++ loop (S i) rest'
    end.

(** [Serialize] of an object, by its type: [Null.Serialize] writes ["null"],
    [Array.Serialize] writes ["["], the elements, ["]"].  The result is what
    is written to the writer. *)
Fixpoint pdfObject_Serialize (o : pdfObject) : string :=
  match o with
  | NullObject => "null"
  | ArrayObject a => "[" ++ serializeFrom pdfObject_Serialize 0 a ++ "]"
  end.

Definition Array_Serialize (a : list pdfObject) : string :=
  pdfObject_Serialize (ArrayObject a).

(** The loop of [Array.Clone]: the clone of each element is pushed on the
    new array. *)
Definition cloneInto (clone : pdfObject -> pdfObject)
  : list pdfObject -> list pdfObject -> list pdfObject :=
  fix loop (newArray rest : list pdfObject) : list pdfObject :=
    match rest with
    | [] => newArray
    | o :: rest' => loop (Array_Add newArray (clone o)) rest'
    end.

(** [Clone] of an object, by its type: [Null.Clone] returns the object,
    [Array.Clone] a new array with the clones of the elements. *)
Fixpoint pdfObject_Clone (o : pdfObject) : pdfObject :=
  match o with
  | NullObject => NullObject
  | ArrayObject a => ArrayObject (cloneInto pdfObject_Clone NewArray a)
  end.

Definition Array_Clone (a : list pdfObject) : list pdfObject :=
  cloneInto pdfObject_Clone NewArray a.

(** * Definitions used in the statements *)

(** ** Entries and tables *)

(** The entry at index [j] exists and satisfies [cond]. *)
Definition holds_at (cond : xrefEntry -> bool) (x : list xrefEntry) (j : nat) : Prop :=
  exists e, x !! j = Some e /\ cond e = true.

(** The condition of the first loop of [nextSegment]. *)
Definition clean (e : xrefEntry) : bool := negb (dirty e).

(** The condition of the search loop of [ReserveObjectNumber]. *)
Definition taken (e : xrefEntry) : bool := (generation e <? 65535) && inUse e.

(** The index at which the search of [ReserveObjectNumber] stops. *)
Definition nextUnusedOf (x : list xrefEntry) : nat := scanFrom taken x 1.

(** The entry at index [j] exists and is free. *)
Definition free_at (x : list xrefEntry) (j : nat) : Prop :=
  exists e, x !! j = Some e /\ inUse e = false.

(** No slot from 1 on is at generation 65535 or above. *)
Definition unretired (x : list xrefEntry) : Prop :=
  forall j e, (1 <= j)%nat -> x !! j = Some e -> generation e < 65535.

(** The generation after a deletion: one more, except at 65535. *)
Definition bump (g : N) : N := if g <? 65535 then g + 1 else g.

(** The entry that [DeleteObject] leaves at the index it deleted. *)
Definition deleted (link : N) (entry : xrefEntry) : xrefEntry :=
  mkXrefEntry link (bump (generation entry)) false true.

(** [l] entries from index [s] on form a maximal run of dirty entries: there
    is at least one, all are dirty, and the run can be extended on neither
    side (on each side the table ends or the neighbour is not dirty). *)
Definition maximal_run (x : list xrefEntry) (s l : nat) : Prop :=
  (1 <= l)%nat /\
  (forall j, (s <= j < s + l)%nat -> holds_at dirty x j) /\
  (s = 0%nat \/ ~ holds_at dirty x (s - 1)) /\
  ~ holds_at dirty x (s + l).

(** Later segments start beyond the end of earlier ones, with a gap. *)
Definition before (a b : nat * nat) : Prop := (fst a + snd a < fst b)%nat.

(** Slot 0 exists, is not in use and is at generation 65535; every entry is
    dirty; no generation is above 65535. *)
Record invariant (f : file) : Prop := {
  inv_head : exists head, xref f !! 0%nat = Some head /\
                          inUse head = false /\ generation head = 65535;
  inv_dirty : Forall (fun e => dirty e = true) (xref f);
  inv_generation : Forall (fun e => generation e <= 65535) (xref f)
}.

(** ** The text of the index *)

(** The strings of a list, one after the other. *)
Definition concatenate (l : list string) : string := foldr String.append "" l.

(** The records of the entries [i .. i+count-1]. *)
Definition entriesText (x : list xrefEntry) (i count : nat) : string :=
  concatenate (map xrefEntry_Serialize (take count (drop i x))).

(** A segment (start index, number of entries): its header line and the
    records of its entries. *)
Definition segmentText (x : list xrefEntry) (seg : nat * nat) : string :=
  decimal (N.of_nat (fst seg)) ++ " " ++ decimal (N.of_nat (snd seg)) ++ nl ++
  entriesText x (fst seg) (snd seg).

(** The segments that the loop of [writeXref] goes through, in its order:
    the loop of [writeSegments] without the writing. *)
Fixpoint segmentsLoop (fuel : nat) (x : list xrefEntry) (s l : nat) : list (nat * nat) :=
  if (Size x <=? s)%nat then []
  else
    match fuel with
    | O => []
    | S fuel' =>
        (s, l) :: (let '(s', l') := nextSegment x (s + l)%nat in
                   segmentsLoop fuel' x s' l')
    end.

Definition segments (x : list xrefEntry) : list (nat * nat) :=
  let '(s, l) := nextSegment x 0 in segmentsLoop (S (Size x)) x s l.

(** The keyword line and the segments. *)
Definition xrefText (x : list xrefEntry) : string :=
  "xref" ++ nl ++ concatenate (map (segmentText x) (segments x)).

(** The text of the index of a table whose entries are all dirty. *)
Definition wholeTableText (x : list xrefEntry) : string :=
  "xref" ++ nl ++ "0 " ++ decimal (N.of_nat (Size x)) ++ nl ++
  concatenate (map xrefEntry_Serialize x).

Definition digitValue (c : ascii) : N := N_of_ascii c - 48.

(** The number that a string of decimal digits denotes. *)
Fixpoint numeralFrom (v : N) (s : string) : N :=
  match s with
  | EmptyString => v
  | String c s' => numeralFrom (10 * v + digitValue c) s'
  end.

Definition numeral (s : string) : N := numeralFrom 0 s.

(** ** Sequences of calls and the states they lead to *)

(** A sequence of reservations, with nothing in between. *)
Fixpoint reserveAll (f : file) (os : list Object) : result (file * list ObjectNumber) :=
  match os with
  | [] => Ok (f, [])
  | o :: os' =>
      do r <- ReserveObjectNumber f o;
      let '(f1, on) := r in
      do r' <- reserveAll f1 os';
      let '(f2, ons) := r' in
      Ok (f2, on :: ons)
  end.

(** One reservation followed by the deletion of what was reserved. *)
Definition reserveThenDelete (s : option file) : option file :=
  match s with
  | Some f =>
      match ReserveObjectNumber f Null with
      | Ok (f1, on) =>
          match DeleteObject f1 on with
          | Ok f2 => Some f2
          | Panic _ => None
          end
      | Panic _ => None
      end
  | None => None
  end.

(** A new file on which slot 1 was reserved and deleted 65535 times, and
    the state this leads to. *)
Definition worn : option file := N.iter 65535 reserveThenDelete (Some NewFile).

Definition wornFile : file :=
  setXref [mkXrefEntry 1 65535 false true; mkXrefEntry 0 65535 false true] NewFile.

(** One object written. *)
Definition oneObject : list call := [CallAddObject Null].

(** The calls that lead to the stale handle [(1, 0)] on a written slot:
    write an object, delete it, write another one in its place. *)
Definition rewritten : list call :=
  [CallAddObject Null; CallDeleteObject (NewObjectNumber 1 0); CallAddObject Null].

(** Slots 1 and 2 reserved on a new file. *)
Definition twoReserved : file :=
  setXref [mkXrefEntry 0 65535 false true; mkXrefEntry 0 0 true true;
           mkXrefEntry 0 0 true true] NewFile.

(** Two reservations, then the deletion of the first. *)
Definition twoReservedFirstDeleted : list call :=
  [CallReserve Null; CallReserve Null; CallDeleteObject (NewObjectNumber 1 0)].

(** Two slots reserved and deleted, the higher one first, and the state
    this leads to. *)
Definition twoDeleted : list call :=
  [CallReserve Null; CallReserve Null;
   CallDeleteObject (NewObjectNumber 2 0); CallDeleteObject (NewObjectNumber 1 0)].

Definition twoDeletedFile : file :=
  setXref [mkXrefEntry 1 65535 false true; mkXrefEntry 2 1 false true;
           mkXrefEntry 0 1 false true] NewFile.

(** Two slots reserved, deleted in ascending order, and reserved again, and
    the state this leads to. *)
Definition twoReused : list call :=
  [CallReserve Null; CallReserve Null;
   CallDeleteObject (NewObjectNumber 1 0); CallDeleteObject (NewObjectNumber 2 0);
   CallReserve Null; CallReserve Null].

Definition twoReusedFile : file :=
  setXref [mkXrefEntry 1 65535 false true; mkXrefEntry 0 1 true true;
           mkXrefEntry 1 1 true true] NewFile.

(** A table with a clean entry between two runs of dirty ones. *)
Definition mixedTable : list xrefEntry :=
  [mkXrefEntry 0 65535 false true; mkXrefEntry 9 0 true true;
   mkXrefEntry 0 1 false false; mkXrefEntry 29 0 true true].

(** The scenario of reuse: on a new file [ReserveObjectNumber] returns
    [(1,0)]; the object is written and deleted, which leaves slot 1 free at
    generation 1 and linked from slot 0; the next [ReserveObjectNumber]
    returns [(1,1)]. *)
Definition reuse_scenario : Prop :=
  exists f1 f2 f3 f4,
    ReserveObjectNumber NewFile (mkObject "true") = Ok (f1, NewObjectNumber 1 0) /\
    AddObjectAt f1 (NewObjectNumber 1 0) (mkObject "true") = Ok f2 /\
    DeleteObject f2 (NewObjectNumber 1 0) = Ok f3 /\
    xref f3 !! 1%nat = Some (mkXrefEntry 0 1 false true) /\
    xref f3 !! 0%nat = Some (mkXrefEntry 1 65535 false true) /\
    ReserveObjectNumber f3 (mkObject "true") = Ok (f4, NewObjectNumber 1 1).

(** ** The write path *)

(** The framed record of an object: ["<number> <generation> obj"], a new
    line, the bytes of the object, a new line, ["endobj"], a new line: the
    three writes of [AddObjectAt], one after the other. *)
Definition recordText (object : ObjectNumber) (o : Object) : string :=
  (decimal (number object) ++ " " ++ decimal (objGeneration object) ++ " obj" ++ nl) ++
  Serialize o ++ (nl ++ "endobj" ++ nl).

(** A sequence of [AddObject] calls, with nothing in between. *)
Fixpoint addAll (f : file) (os : list Object) : result (file * list ObjectNumber) :=
  match os with
  | [] => Ok (f, [])
  | o :: os' =>
      do r <- AddObject f o;
      let '(f1, on) := r in
      do r' <- addAll f1 os';
      let '(f2, ons) := r' in
      Ok (f2, on :: ons)
  end.

(** Objects written one after the other from offset [pos] on, under the
    numbers [num], [num + 1], ... at generation 0: their numbers, their
    entries in the table and the text of their records. *)
Fixpoint objectsLayout (pos : nat) (num : nat) (os : list Object)
  : list ObjectNumber * list xrefEntry * string :=
  match os with
  | [] => ([], [], "")
  | o :: os' =>
      let on := NewObjectNumber (N.of_nat num) 0 in
      let '(ons, es, text) :=
        objectsLayout (pos + String.length (recordText on o)) (S num) os' in
      (on :: ons, mkXrefEntry (N.of_nat pos) 0 true true :: es, recordText on o ++ text)
  end.

(** The bytes written so far: those in the file followed by those that the
    writer still holds.  On an open file they are the bytes of the file once
    the writer is flushed. *)
Definition written (f : file) : string := contents (osfile f) ++ writer f.

(** The calls made after a [Close] in the example of closing: a deletion,
    a reservation that takes the deleted slot again, a reservation that adds a
    slot, and another [Close]. *)
Definition afterClose : list call :=
  [CallDeleteObject (NewObjectNumber 1 0); CallReserve Null; CallReserve Null; CallClose].

(** A record of the index as its format lays it out: the offset in at least
    ten digits, a space, the generation in at least five digits, a space, [n]
    for an entry in use and [f] for a free one, a space, a new line. *)
Definition recordLine (e : xrefEntry) : string :=
  decimal0 10 (byteOffset e) ++ " " ++ decimal0 5 (generation e) ++ " " ++
  (if inUse e then "n" else "f") ++ " " ++ nl.

(** The index with the whole table as its one segment: the keyword line,
    the header line of a segment that starts at 0 and has as many entries as
    the table, and a record for every entry of the table in the order of the
    table. *)
Definition wholeTableIndex (x : list xrefEntry) : string :=
  "xref" ++ nl ++ "0 " ++ decimal (N.of_nat (length x)) ++ nl ++
  concatenate (map recordLine x).

(** Two objects written, the first one deleted. *)
Definition twoWrittenOneDeleted : list call :=
  [CallAddObject Null; CallAddObject Null; CallDeleteObject (NewObjectNumber 1 0)].

(** ** [TestFile] *)

(** The number of calls in a list that reserve an object number. *)
Fixpoint reservations (cs : list call) : nat :=
  match cs with
  | [] => 0
  | CallReserve _ :: cs' => S (reservations cs')
  | CallAddObject _ :: cs' => S (reservations cs')
  | _ :: cs' => reservations cs'
  end.

(** The object number of the [k]-th reservation, counted from 0, on
    [NewTestFile obj gen]. *)
Definition testNumber (obj gen : N) (k : nat) : ObjectNumber :=
  NewObjectNumber ((obj + N.of_nat k) mod 2 ^ 32) ((gen + N.of_nat k) mod 2 ^ 16).

(** ** Character classes *)

(** [P] holds of every number below [n]. *)
Fixpoint below (n : nat) (P : N -> bool) : bool :=
  match n with
  | O => true
  | S k => P (N.of_nat k) && below k P
  end.

(** The value of a hexadecimal digit: ['0'..'9'] are 0 to 9, ['A'..'F'] and
    ['a'..'f'] are 10 to 15. *)
Definition hexValue (c : N) : N :=
  if IsDigit c then c - 48
  else if (65 <=? c) && (c <=? 70) then c - 55
  else c - 87.

(** * Properties *)

(** ** Results *)

Lemma Ok_not_fails {A : Type} (a : A) : ~ fails (Ok a).
Proof. intros [p Hp]. discriminate Hp. Qed.

Lemma At_Some (x : list xrefEntry) (i : nat) (e : xrefEntry) :
  x !! i = Some e -> At x i = Ok e.
Proof. intros H. unfold At. rewrite H. reflexivity. Qed.

Lemma At_Ok (x : list xrefEntry) (i : nat) (e : xrefEntry) :
  At x i = Ok e -> x !! i = Some e.
Proof. unfold At. destruct (x !! i); intros H; inversion H; reflexivity. Qed.

Lemma lookup_assign (x : list xrefEntry) (i j : nat) (upd : xrefEntry -> xrefEntry) :
  assign i upd x !! j = if decide (i = j) then upd <$> x !! j else x !! j.
Proof.
  unfold assign. rewrite list_lookup_alter. case_decide; subst; reflexivity.
Qed.

Lemma length_assign (x : list xrefEntry) (i : nat) (upd : xrefEntry -> xrefEntry) :
  length (assign i upd x) = length x.
Proof. unfold assign. apply length_alter. Qed.

(** ** [DeleteObject] *)

Lemma DeleteObject_mismatch (f : file) (object : ObjectNumber) (entry : xrefEntry) :
  xref f !! N.to_nat (number object) = Some entry ->
  objGeneration object <> generation entry ->
  DeleteObject f object = Panic GenerationMismatch.
Proof.
  intros Hentry Hne. unfold DeleteObject.
  rewrite (At_Some _ _ _ Hentry). simpl.
  destruct (N.eqb_spec (objGeneration object) (generation entry)) as [Heq|_];
    [contradiction | reflexivity].
Qed.

(** A deletion that returns: what was checked, and the table it leaves. *)
Lemma DeleteObject_Ok (f f' : file) (object : ObjectNumber) :
  DeleteObject f object = Ok f' ->
  exists entry head,
    xref f !! N.to_nat (number object) = Some entry /\
    xref f !! 0%nat = Some head /\
    objGeneration object = generation entry /\
    osfile f' = osfile f /\ writer f' = writer f /\
    length (xref f') = length (xref f) /\
    (forall j, j <> N.to_nat (number object) -> j <> 0%nat ->
               xref f' !! j = xref f !! j) /\
    (N.to_nat (number object) <> 0%nat ->
       xref f' !! 0%nat = Some (setByteOffset (number object) head) /\
       xref f' !! N.to_nat (number object)
         = Some (deleted (byteOffset head) entry)) /\
    (N.to_nat (number object) = 0%nat ->
       xref f' !! 0%nat = Some (deleted (number object) entry)).
Proof.
  unfold DeleteObject. intros H.
  destruct (xref f !! N.to_nat (number object)) as [entry|] eqn:Hentry;
    [rewrite (At_Some _ _ _ Hentry) in H | unfold At in H; rewrite Hentry in H; discriminate H].
  simpl in H.
  destruct (N.eqb_spec (objGeneration object) (generation entry)) as [Heq|Hne];
    [simpl in H | discriminate H].
  destruct (xref f !! 0%nat) as [head|] eqn:Hhead;
    [rewrite (At_Some _ _ _ Hhead) in H | unfold At in H; rewrite Hhead in H; discriminate H].
  simpl in H. injection H as <-.
  exists entry, head. simpl.
  repeat split; try assumption; try reflexivity.
  - rewrite !length_assign. reflexivity.
  - intros j Hj Hj0. rewrite !lookup_assign.
    repeat case_decide; try congruence.
  - rewrite !lookup_assign. repeat case_decide; try congruence.
    rewrite Hhead. reflexivity.
  - rewrite !lookup_assign. repeat case_decide; try congruence.
    rewrite Hentry. simpl. unfold deleted, bump. simpl.
    destruct (generation entry <? 65535); reflexivity.
  - rewrite !lookup_assign. repeat case_decide; try congruence.
    rewrite H in Hentry. rewrite Hhead in Hentry. injection Hentry as ->.
    rewrite Hhead. simpl. unfold deleted, bump. simpl.
    destruct (generation entry <? 65535); reflexivity.
Qed.

Lemma DeleteObject_match (f : file) (object : ObjectNumber) (entry : xrefEntry) :
  xref f !! N.to_nat (number object) = Some entry ->
  objGeneration object = generation entry ->
  succeeds (DeleteObject f object).
Proof.
  intros Hentry Heq. unfold DeleteObject, succeeds.
  rewrite (At_Some _ _ _ Hentry). simpl.
  rewrite Heq, N.eqb_refl. simpl.
  assert (Hlt : (0 < length (xref f))%nat).
  { apply lookup_lt_Some in Hentry. lia. }
  destruct (lookup_lt_is_Some_2 (xref f) 0 Hlt) as [head Hhead].
  rewrite (At_Some _ _ _ Hhead). simpl. eexists. reflexivity.
Qed.

(** ** Running calls stays among the reachable states *)

Lemma step_reachable (f f' : file) (c : call) :
  reachable f -> step f c = Some f' -> reachable f'.
Proof.
  intros Hf. destruct c as [o|on o|o|on|]; simpl.
  - destruct (ReserveObjectNumber f o) as [[f1 on1]|p] eqn:Hr; intros H; inversion H; subst.
    eapply reach_Reserve; eassumption.
  - destruct (AddObjectAt f on o) as [f1|p] eqn:Ha; intros H; inversion H; subst.
    eapply reach_AddObjectAt; eassumption.
  - unfold AddObject.
    destruct (ReserveObjectNumber f o) as [[f1 on1]|p] eqn:Hr; simpl; [|discriminate].
    destruct (AddObjectAt f1 on1 o) as [f2|p] eqn:Ha; simpl; intros H; inversion H; subst.
    eapply reach_AddObjectAt; [|eassumption].
    eapply reach_Reserve; eassumption.
  - destruct (DeleteObject f on) as [f1|p] eqn:Hd; intros H; inversion H; subst.
    eapply reach_DeleteObject; eassumption.
  - destruct (Close f) as [[f1|p]|] eqn:Hc; intros H; inversion H; subst.
    eapply reach_Close; eassumption.
Qed.

Lemma run_reachable (cs : list call) (f f' : file) :
  reachable f -> run f cs = Some f' -> reachable f'.
Proof.
  revert f. induction cs as [|c cs IH]; intros f Hf; simpl.
  - intros H. inversion H. subst. assumption.
  - destruct (step f c) as [f1|] eqn:Hs; [|discriminate].
    intros H. apply (IH f1); [|assumption].
    eapply step_reachable; eassumption.
Qed.

(** ** Release checks the generation (C3) *)

(** C3, as amended.  For an object number that indexes an existing slot,
    [DeleteObject] returns exactly when the generation of its argument equals
    the generation stored in the slot, and panics with "Generation number
    mismatch" otherwise; after a [DeleteObject] that returned, for an argument
    whose generation is below 65535, the same call repeated at once panics
    with "Generation number mismatch". *)
Theorem DeleteObject_generation_check
    (f : file) (object : ObjectNumber) (entry : xrefEntry) :
  xref f !! N.to_nat (number object) = Some entry ->
  (succeeds (DeleteObject f object) <-> objGeneration object = generation entry) /\
  (objGeneration object <> generation entry ->
     DeleteObject f object = Panic GenerationMismatch) /\
  (forall f', DeleteObject f object = Ok f' ->
     objGeneration object < 65535 ->
     DeleteObject f' object = Panic GenerationMismatch).
Proof.
  intros Hentry. split; [split|split].
  - intros [f' Hok].
    destruct (DeleteObject_Ok _ _ _ Hok) as (e & h & He & _ & Hgen & _).
    rewrite Hentry in He. injection He as <-. exact Hgen.
  - apply DeleteObject_match. exact Hentry.
  - apply DeleteObject_mismatch. exact Hentry.
  - intros f' Hok Hlt.
    destruct (DeleteObject_Ok _ _ _ Hok)
      as (e & h & He & Hh & Hgen & _ & _ & _ & _ & Hne0 & Heq0).
    assert (Hbump : bump (generation e) <> objGeneration object).
    { unfold bump. rewrite <- Hgen.
      destruct (N.ltb_spec (objGeneration object) 65535); lia. }
    destruct (decide (N.to_nat (number object) = 0%nat)) as [Hz|Hnz].
    + apply (DeleteObject_mismatch f' object (deleted (number object) e)).
      * rewrite Hz. apply Heq0. exact Hz.
      * simpl. congruence.
    + apply (DeleteObject_mismatch f' object (deleted (byteOffset h) e)).
      * apply Hne0. exact Hnz.
      * simpl. congruence.
Qed.

Lemma DeleteObject_generation_check_witness :
  let f := mkFile [mkXrefEntry 0 65535 false true; mkXrefEntry 9 0 true true]
                  (mkOsFile "" true) "" in
  let object := NewObjectNumber 1 0 in
  (succeeds (DeleteObject f object) <-> 0 = 0) /\
  (0 <> 0 -> DeleteObject f object = Panic GenerationMismatch) /\
  (forall f', DeleteObject f object = Ok f' ->
     0 < 65535 -> DeleteObject f' object = Panic GenerationMismatch).
Proof.
  intros f object.
  apply (DeleteObject_generation_check f object (mkXrefEntry 9 0 true true)).
  reflexivity.
Defined.

(** C3 as stated fails on the free-list head: slot 0 is at generation 65535,
    which [DeleteObject] does not increment, so deleting [(0, 65535)] from a
    new file returns, and returns again when repeated. *)
Lemma DeleteObject_twice_accepted :
  ~ (forall (f f' : file) (object : ObjectNumber),
       reachable f ->
       is_Some (xref f !! N.to_nat (number object)) ->
       DeleteObject f object = Ok f' ->
       fails (DeleteObject f' object)).
Proof.
  intros H.
  apply (Ok_not_fails NewFile).
  apply (H NewFile NewFile (NewObjectNumber 0 65535)).
  - apply reach_NewFile.
  - eexists. reflexivity.
  - reflexivity.
Qed.

(** ** Stale handles (C4) *)

(** C4, as amended.  With a generation strictly below the generation stored
    in the slot, [DeleteObject] panics with "Generation number mismatch", and
    [AddObjectAt] panics too: with "Generation number mismatch" when the
    slot's [byteOffset] is zero, and with "An object has already been written
    with this number" when it is not, because that check comes first. *)
Theorem stale_handle_rejected
    (f : file) (object : ObjectNumber) (o : Object) (entry : xrefEntry) :
  xref f !! N.to_nat (number object) = Some entry ->
  objGeneration object < generation entry ->
  DeleteObject f object = Panic GenerationMismatch /\
  AddObjectAt f object o =
    Panic (if byteOffset entry =? 0 then GenerationMismatch else AlreadyWritten).
Proof.
  intros Hentry Hlt. split.
  - apply (DeleteObject_mismatch f object entry Hentry). lia.
  - unfold AddObjectAt. rewrite (At_Some _ _ _ Hentry). simpl.
    destruct (byteOffset entry =? 0); simpl; [|reflexivity].
    destruct (N.eqb_spec (generation entry) (objGeneration object)) as [Heq|Hne];
      [lia | reflexivity].
Qed.

Lemma stale_handle_rejected_witness :
  let f := mkFile [mkXrefEntry 0 65535 false true; mkXrefEntry 29 1 true true]
                  (mkOsFile "" true) "" in
  DeleteObject f (NewObjectNumber 1 0) = Panic GenerationMismatch /\
  AddObjectAt f (NewObjectNumber 1 0) Null = Panic AlreadyWritten.
Proof.
  intros f.
  apply (stale_handle_rejected f (NewObjectNumber 1 0) Null (mkXrefEntry 29 1 true true)).
  - reflexivity.
  - reflexivity.
Defined.

(** C4 as stated fails for [AddObjectAt]: after [rewritten], slot 1 is at
    generation 1 with a file offset, and the stale handle [(1, 0)] is refused
    with "An object has already been written with this number". *)
Lemma stale_AddObjectAt_not_mismatch :
  ~ (forall (f : file) (object : ObjectNumber) (o : Object) (entry : xrefEntry),
       reachable f ->
       xref f !! N.to_nat (number object) = Some entry ->
       objGeneration object < generation entry ->
       AddObjectAt f object o = Panic GenerationMismatch).
Proof.
  intros H.
  destruct (run NewFile rewritten) as [f|] eqn:Hrun; [|discriminate Hrun].
  assert (Hreach : reachable f) by (eapply run_reachable; [apply reach_NewFile | exact Hrun]).
  vm_compute in Hrun. injection Hrun as <-.
  specialize (H _ (NewObjectNumber 1 0) Null (mkXrefEntry 29 1 true true) Hreach).
  simpl in H. specialize (H eq_refl eq_refl). discriminate H.
Qed.

(** ** Strings *)

Lemma append_assoc (a b c : string) : (a ++ b) ++ c = a ++ (b ++ c).
Proof. induction a as [|ch a IH]; simpl; [reflexivity | rewrite IH; reflexivity]. Qed.

Lemma append_nil_r (a : string) : a ++ "" = a.
Proof. induction a as [|ch a IH]; simpl; [reflexivity | rewrite IH; reflexivity]. Qed.

Lemma length_append (a b : string) :
  String.length (a ++ b) = (String.length a + String.length b)%nat.
Proof. induction a as [|ch a IH]; simpl; [reflexivity | rewrite IH; reflexivity]. Qed.

Lemma concatenate_app (l1 l2 : list string) :
  concatenate (l1 ++ l2)%list = concatenate l1 ++ concatenate l2.
Proof.
  induction l1 as [|s l1 IH]; simpl; [reflexivity|].
  unfold concatenate in *. simpl. rewrite IH, append_assoc. reflexivity.
Qed.

Lemma WriteString_WriteString (a b : string) (f : file) :
  WriteString b (WriteString a f) = WriteString (a ++ b) f.
Proof. unfold WriteString. simpl. rewrite append_assoc. reflexivity. Qed.

(** ** The scanning loop *)

Lemma holds_at_dec (cond : xrefEntry -> bool) (x : list xrefEntry) (j : nat) :
  holds_at cond x j \/ ~ holds_at cond x j.
Proof.
  unfold holds_at. destruct (x !! j) as [e|] eqn:He.
  - destruct (cond e) eqn:Hc.
    + left. exists e. split; [reflexivity | exact Hc].
    + right. intros (e' & He' & Hc'). injection He' as <-. congruence.
  - right. intros (e' & He' & _). discriminate He'.
Qed.

Lemma scan_ge (cond : xrefEntry -> bool) (x : list xrefEntry) (fuel i : nat) :
  (i <= scan cond x fuel i)%nat.
Proof.
  revert i. induction fuel as [|fuel IH]; intros i; simpl; [lia|].
  destruct (x !! i) as [e|]; [|lia].
  destruct (cond e); [|lia]. specialize (IH (S i)). lia.
Qed.

(** Every index the loop went past satisfies the condition. *)
Lemma scan_passed (cond : xrefEntry -> bool) (x : list xrefEntry) (fuel i j : nat) :
  (i <= j < scan cond x fuel i)%nat -> holds_at cond x j.
Proof.
  revert i. induction fuel as [|fuel IH]; intros i; simpl; [lia|].
  destruct (x !! i) as [e|] eqn:He; [|lia].
  destruct (cond e) eqn:Hc; [|lia].
  intros Hj. destruct (decide (j = i)) as [->|Hne].
  - exists e. split; assumption.
  - apply (IH (S i)). lia.
Qed.

(** With fuel for the rest of the table the loop stops where its condition
    fails: beyond the table or at an entry that does not satisfy [cond]. *)
Lemma scan_stops (cond : xrefEntry -> bool) (x : list xrefEntry) (fuel i : nat) :
  (Size x - i <= fuel)%nat -> ~ holds_at cond x (scan cond x fuel i).
Proof.
  revert i. induction fuel as [|fuel IH]; intros i Hfuel; simpl.
  - intros (e & He & _). apply lookup_lt_Some in He. unfold Size in Hfuel. lia.
  - destruct (x !! i) as [e|] eqn:He.
    + destruct (cond e) eqn:Hc.
      * apply IH. lia.
      * intros (e' & He' & Hc'). rewrite He in He'. injection He' as <-. congruence.
    + intros (e' & He' & _). rewrite He in He'. discriminate He'.
Qed.

Lemma scanFrom_ge (cond : xrefEntry -> bool) (x : list xrefEntry) (i : nat) :
  (i <= scanFrom cond x i)%nat.
Proof. apply scan_ge. Qed.

Lemma scanFrom_passed (cond : xrefEntry -> bool) (x : list xrefEntry) (i j : nat) :
  (i <= j < scanFrom cond x i)%nat -> holds_at cond x j.
Proof. apply scan_passed. Qed.

Lemma scanFrom_stops (cond : xrefEntry -> bool) (x : list xrefEntry) (i : nat) :
  ~ holds_at cond x (scanFrom cond x i).
Proof. apply scan_stops. lia. Qed.

Lemma scanFrom_le_Size (cond : xrefEntry -> bool) (x : list xrefEntry) (i : nat) :
  (i <= Size x)%nat -> (scanFrom cond x i <= Size x)%nat.
Proof.
  intros Hi.
  destruct (decide (scanFrom cond x i = i)) as [->|Hne]; [exact Hi|].
  pose proof (scanFrom_ge cond x i) as Hge.
  destruct (scanFrom_passed cond x i (scanFrom cond x i - 1)) as (e & He & _); [lia|].
  apply lookup_lt_Some in He. unfold Size. lia.
Qed.

(** The loop is determined by where the condition first fails. *)
Lemma scanFrom_unique (cond : xrefEntry -> bool) (x : list xrefEntry) (i r : nat) :
  (i <= r)%nat ->
  (forall j, (i <= j < r)%nat -> holds_at cond x j) ->
  ~ holds_at cond x r ->
  scanFrom cond x i = r.
Proof.
  intros Hir Hpassed Hstop.
  pose proof (scanFrom_ge cond x i) as Hge.
  pose proof (scanFrom_stops cond x i) as Hs.
  destruct (Nat.lt_trichotomy (scanFrom cond x i) r) as [Hlt|[Heq|Hgt]].
  - exfalso. apply Hs. apply Hpassed. lia.
  - exact Heq.
  - exfalso. apply Hstop. apply (scanFrom_passed cond x i). lia.
Qed.

(** ** Segments *)

Lemma not_clean_dirty (x : list xrefEntry) (j : nat) :
  (j < Size x)%nat -> ~ holds_at clean x j -> holds_at dirty x j.
Proof.
  intros Hj Hn. destruct (lookup_lt_is_Some_2 x j Hj) as [e He].
  exists e. split; [exact He|].
  destruct (dirty e) eqn:Hd; [reflexivity|].
  exfalso. apply Hn. exists e. split; [exact He|]. unfold clean. rewrite Hd. reflexivity.
Qed.

Lemma clean_not_dirty (x : list xrefEntry) (j : nat) :
  holds_at clean x j -> ~ holds_at dirty x j.
Proof.
  intros (e & He & Hc) (e' & He' & Hd). rewrite He in He'. injection He' as <-.
  unfold clean in Hc. rewrite Hd in Hc. discriminate Hc.
Qed.

(** What [nextSegment] returns: the entries from [start] up to the segment
    are clean, the segment's entries are dirty, the segment ends at a clean
    entry or at the end of the table, and it is not empty unless the table is
    exhausted. *)
Lemma nextSegment_spec (x : list xrefEntry) (start s l : nat) :
  (start <= Size x)%nat ->
  nextSegment x start = (s, l) ->
  (start <= s)%nat /\ (s + l <= Size x)%nat /\
  (forall j, (start <= j < s)%nat -> holds_at clean x j) /\
  (forall j, (s <= j < s + l)%nat -> holds_at dirty x j) /\
  ~ holds_at dirty x (s + l) /\
  ((s < Size x)%nat -> (1 <= l)%nat).
Proof.
  intros Hstart H. unfold nextSegment in H.
  change (fun e : xrefEntry => negb (dirty e)) with clean in H.
  injection H as Hs Hl. rewrite Hs in Hl.
  pose proof (scanFrom_ge clean x start) as H1.
  pose proof (scanFrom_le_Size clean x start Hstart) as H2.
  pose proof (scanFrom_stops clean x start) as H3.
  rewrite Hs in H1, H2, H3.
  pose proof (scanFrom_ge dirty x s) as H4.
  pose proof (scanFrom_le_Size dirty x s H2) as H5.
  pose proof (scanFrom_stops dirty x s) as H6.
  assert (Hsl : (s + l)%nat = scanFrom dirty x s) by lia.
  rewrite Hsl. repeat split; try lia.
  - intros j Hj. apply (scanFrom_passed clean x start). rewrite Hs. exact Hj.
  - intros j Hj. apply (scanFrom_passed dirty x s). exact Hj.
  - exact H6.
  - intros Hlt. pose proof (not_clean_dirty x s Hlt H3) as Hd.
    destruct (decide (scanFrom dirty x s = s)) as [Heq|Hne]; [|lia].
    rewrite Heq in H6. contradiction.
Qed.

Arguments nextSegment : simpl never.

Lemma concatenate_cons (s : string) (l : list string) :
  concatenate (s :: l) = s ++ concatenate l.
Proof. reflexivity. Qed.

Lemma WriteString_nil (f : file) : WriteString "" f = f.
Proof. destruct f. unfold WriteString. simpl. rewrite append_nil_r. reflexivity. Qed.

Lemma writeEntries_Ok (x : list xrefEntry) (count i : nat) (f : file) :
  (i + count <= Size x)%nat ->
  writeEntries x i count f = Ok (WriteString (entriesText x i count) f).
Proof.
  revert i f. induction count as [|count IH]; intros i f Hle; simpl.
  - unfold entriesText. simpl. rewrite WriteString_nil. reflexivity.
  - destruct (lookup_lt_is_Some_2 x i) as [e He]; [unfold Size in Hle; lia|].
    rewrite (At_Some _ _ _ He). simpl.
    rewrite IH by lia. rewrite WriteString_WriteString.
    unfold entriesText. rewrite (drop_S _ _ _ He). reflexivity.
Qed.

Lemma writeSegments_S (fuel : nat) (x : list xrefEntry) (s l : nat) (f : file) :
  writeSegments (S fuel) x s l f =
    if (Size x <=? s)%nat then Some (Ok f)
    else
      match writeEntries x s l
              (WriteString (decimal (N.of_nat s) ++ " " ++ decimal (N.of_nat l) ++ nl) f) with
      | Ok f2 => writeSegments fuel x (fst (nextSegment x (s + l)%nat))
                                      (snd (nextSegment x (s + l)%nat)) f2
      | Panic p => Some (Panic p)
      end.
Proof.
  simpl. destruct (Size x <=? s)%nat; [reflexivity|].
  destruct (writeEntries x s l _); [|reflexivity].
  destruct (nextSegment x (s + l)); reflexivity.
Qed.

Lemma segmentsLoop_S (fuel : nat) (x : list xrefEntry) (s l : nat) :
  segmentsLoop (S fuel) x s l =
    if (Size x <=? s)%nat then []
    else (s, l) :: segmentsLoop fuel x (fst (nextSegment x (s + l)%nat))
                                       (snd (nextSegment x (s + l)%nat)).
Proof.
  simpl. destruct (Size x <=? s)%nat; [reflexivity|].
  destruct (nextSegment x (s + l)); reflexivity.
Qed.

(** With fuel for the rest of the table, the loop of [writeXref] ends, does
    not panic, and writes the text of the segments it goes through. *)
Lemma writeSegments_enough (fuel : nat) (x : list xrefEntry) (start s l : nat) (f : file) :
  (start <= Size x)%nat -> (Size x - start < fuel)%nat ->
  nextSegment x start = (s, l) ->
  writeSegments fuel x s l f =
    Some (Ok (WriteString (concatenate (map (segmentText x) (segmentsLoop fuel x s l))) f)).
Proof.
  revert start s l f. induction fuel as [|fuel IH]; intros start s l f Hstart Hfuel Hseg;
    [lia|].
  destruct (nextSegment_spec x start s l Hstart Hseg) as (H1 & H2 & _ & _ & _ & H6).
  rewrite writeSegments_S, segmentsLoop_S.
  destruct (Nat.leb_spec (Size x) s) as [Hge|Hlt].
  - simpl. rewrite WriteString_nil. reflexivity.
  - specialize (H6 Hlt). rewrite writeEntries_Ok by exact H2.
    destruct (nextSegment x (s + l)) as [s' l'] eqn:Hnext.
    rewrite (IH (s + l)%nat s' l') by (try exact Hnext; lia).
    rewrite !WriteString_WriteString. cbn [map fst snd].
    rewrite concatenate_cons. unfold segmentText at 2. cbn [fst snd].
    rewrite !append_assoc. reflexivity.
Qed.

(** [writeXref] returns, without a panic: it leaves the table and the handle
    as they are and adds to the writer the keyword line and the segments. *)
Lemma writeXref_returns (f : file) :
  writeXref f = Some (Ok (WriteString (xrefText (xref f)) f)).
Proof.
  unfold writeXref, writeXref_fuel, xrefText, segments.
  destruct (nextSegment (xref f) 0) as [s l] eqn:Hseg.
  rewrite (writeSegments_enough _ _ 0 s l) by (try exact Hseg; lia).
  rewrite WriteString_WriteString. rewrite append_assoc. reflexivity.
Qed.

(** ** The segments are the maximal runs of dirty entries *)

(** Two maximal runs that start at the same index are the same run. *)
Lemma maximal_run_length (x : list xrefEntry) (s l l' : nat) :
  maximal_run x s l -> maximal_run x s l' -> l = l'.
Proof.
  intros (H1 & H2 & _ & H4) (H1' & H2' & _ & H4').
  destruct (Nat.lt_trichotomy l l') as [Hlt|[Heq|Hgt]]; [|exact Heq|].
  - exfalso. apply H4. apply H2'. lia.
  - exfalso. apply H4'. apply H2. lia.
Qed.

(** The loop entered at [nextSegment x start], where [start] is [0] or the
    index after a segment, goes through exactly the maximal runs that start
    at [start] or later. *)
Lemma segmentsLoop_runs (fuel : nat) (x : list xrefEntry) (start s l : nat) :
  (start <= Size x)%nat -> (Size x - start < fuel)%nat ->
  start = 0%nat \/ ~ holds_at dirty x start ->
  nextSegment x start = (s, l) ->
  forall s0 l0,
    (s0, l0) ∈ segmentsLoop fuel x s l <-> maximal_run x s0 l0 /\ (start <= s0)%nat.
Proof.
  revert start s l. induction fuel as [|fuel IH]; intros start s l Hstart Hfuel Hinv Hseg;
    [lia|].
  destruct (nextSegment_spec x start s l Hstart Hseg) as (H1 & H2 & H3 & H4 & H5 & H6).
  intros s0 l0. rewrite segmentsLoop_S.
  destruct (Nat.leb_spec (Size x) s) as [Hge|Hlt].
  - (* the table is exhausted: no run starts at [start] or later *)
    split; [intros Hin; inversion Hin|].
    intros [(Hl0 & Hrun & _) Hs0]. exfalso.
    destruct (Hrun s0) as (e & He & Hd); [lia|].
    destruct (decide (s0 < s)%nat) as [Hs|Hs].
    + apply (clean_not_dirty x s0); [apply H3; lia | exists e; auto].
    + apply lookup_lt_Some in He. unfold Size in Hge. lia.
  - specialize (H6 Hlt).
    assert (Hleft : s = 0%nat \/ ~ holds_at dirty x (s - 1)).
    { destruct (decide (s = start)) as [->|Hne].
      - destruct Hinv as [->|Hinv]; [left; reflexivity|].
        exfalso. apply Hinv. apply H4. lia.
      - right. apply clean_not_dirty. apply H3. lia. }
    assert (Hthis : maximal_run x s l) by (repeat split; assumption).
    destruct (nextSegment x (s + l)) as [s' l'] eqn:Hnext. cbn [fst snd].
    rewrite elem_of_cons.
    rewrite (IH (s + l)%nat s' l') by (try exact Hnext; try (right; exact H5); lia).
    split.
    + intros [Heq|[Hrun Hle]].
      * injection Heq as -> ->. split; [exact Hthis | exact H1].
      * split; [exact Hrun | lia].
    + intros [Hrun Hle].
      destruct Hrun as (Hl0 & Hall & Hl & Hr).
      assert (Hs0 : holds_at dirty x s0) by (apply Hall; lia).
      assert (Hge : (s <= s0)%nat).
      { destruct (decide (s0 < s)%nat) as [Hs|Hs]; [|lia].
        exfalso. apply (clean_not_dirty x s0); [apply H3; lia | exact Hs0]. }
      destruct (decide (s0 = s)) as [->|Hne].
      * left. f_equal.
        apply (maximal_run_length x s); [repeat split; assumption | exact Hthis].
      * right. split; [repeat split; assumption|].
        destruct Hl as [->|Hl]; [lia|].
        destruct (decide (s0 - 1 < s + l)%nat) as [Hin|Hout]; [|lia].
        exfalso. apply Hl. apply H4. lia.
Qed.

Lemma segmentsLoop_sorted (fuel : nat) (x : list xrefEntry) (start s l : nat) :
  (start <= Size x)%nat -> (Size x - start < fuel)%nat ->
  start = 0%nat \/ ~ holds_at dirty x start ->
  nextSegment x start = (s, l) ->
  StronglySorted before (segmentsLoop fuel x s l).
Proof.
  revert start s l. induction fuel as [|fuel IH]; intros start s l Hstart Hfuel Hinv Hseg;
    [lia|].
  destruct (nextSegment_spec x start s l Hstart Hseg) as (H1 & H2 & H3 & H4 & H5 & H6).
  rewrite segmentsLoop_S.
  destruct (Nat.leb_spec (Size x) s) as [Hge|Hlt]; [constructor|].
  specialize (H6 Hlt).
  destruct (nextSegment x (s + l)) as [s' l'] eqn:Hnext. cbn [fst snd].
  constructor.
  - apply (IH (s + l)%nat); try exact Hnext; try (right; exact H5); lia.
  - apply Forall_forall. intros [s0 l0] Hin.
    apply (segmentsLoop_runs fuel x (s + l)%nat s' l') in Hin;
      try exact Hnext; try (right; exact H5); try lia.
    destruct Hin as [(Hl0 & Hall & _) Hle]. unfold before. cbn [fst snd].
    destruct (decide (s0 = s + l)%nat) as [->|Hne]; [|lia].
    exfalso. apply H5. apply Hall. lia.
Qed.

Lemma segments_runs (x : list xrefEntry) (s l : nat) :
  (s, l) ∈ segments x <-> maximal_run x s l.
Proof.
  unfold segments. destruct (nextSegment x 0) as [s1 l1] eqn:Hseg.
  rewrite (segmentsLoop_runs _ x 0 s1 l1) by (try exact Hseg; try (left; reflexivity); lia).
  split; [intros [H _]; exact H | intros H; split; [exact H | lia]].
Qed.

Lemma segments_sorted (x : list xrefEntry) : StronglySorted before (segments x).
Proof.
  unfold segments. destruct (nextSegment x 0) as [s1 l1] eqn:Hseg.
  apply (segmentsLoop_sorted _ x 0 s1 l1); try exact Hseg; try (left; reflexivity); lia.
Qed.

(** ** What the operations do to the table *)

Lemma Forall_assign (P : xrefEntry -> Prop) (x : list xrefEntry) (i : nat)
    (upd : xrefEntry -> xrefEntry) :
  Forall P x -> (forall e, P e -> P (upd e)) -> Forall P (assign i upd x).
Proof.
  intros Hx Hupd. unfold assign. apply Forall_alter; [exact Hx|].
  intros e _ He. apply Hupd. exact He.
Qed.

Lemma ReserveObjectNumber_Ok (f f' : file) (o : Object) (on : ObjectNumber) :
  ReserveObjectNumber f o = Ok (f', on) ->
  osfile f' = osfile f /\ writer f' = writer f /\
  number on = uint32 (nextUnusedOf (xref f)) /\
  (((Size (xref f) <= nextUnusedOf (xref f))%nat /\
    objGeneration on = 0 /\
    xref f' = (xref f ++ [mkXrefEntry 0 0 true true])%list)
   \/
   (exists entry head,
      (nextUnusedOf (xref f) < Size (xref f))%nat /\
      xref f !! nextUnusedOf (xref f) = Some entry /\
      xref f !! 0%nat = Some head /\
      objGeneration on = generation entry /\
      xref f' = assign (nextUnusedOf (xref f)) (setInUse true)
                  (assign 0 (setByteOffset (byteOffset entry)) (xref f)))).
Proof.
  unfold ReserveObjectNumber. fold taken. fold (nextUnusedOf (xref f)).
  pose proof (scanFrom_ge taken (xref f) 1) as Hge. fold (nextUnusedOf (xref f)) in Hge.
  destruct (Nat.leb_spec (Size (xref f)) (nextUnusedOf (xref f))) as [Hout|Hin].
  - intros H. injection H as <- <-. simpl.
    repeat split. left. repeat split. exact Hout.
  - destruct (lookup_lt_is_Some_2 (xref f) _ Hin) as [entry Hentry].
    assert (H0 : (0 < length (xref f))%nat) by (unfold Size in Hin; lia).
    destruct (lookup_lt_is_Some_2 (xref f) 0 H0) as [head Hhead].
    rewrite (At_Some _ _ _ Hentry), (At_Some _ _ _ Hhead). cbn [bind].
    assert (Hentry' : assign 0 (setByteOffset (byteOffset entry)) (xref f)
                        !! nextUnusedOf (xref f) = Some entry).
    { rewrite lookup_assign. case_decide; [lia | exact Hentry]. }
    rewrite (At_Some _ _ _ Hentry'). cbn [bind].
    intros H. injection H as <- <-. simpl.
    repeat split. right. exists entry, head. repeat split; assumption.
Qed.

(** [ReserveObjectNumber] never panics. *)
Lemma ReserveObjectNumber_succeeds (f : file) (o : Object) :
  succeeds (ReserveObjectNumber f o).
Proof.
  unfold succeeds, ReserveObjectNumber. fold taken. fold (nextUnusedOf (xref f)).
  pose proof (scanFrom_ge taken (xref f) 1) as Hge. fold (nextUnusedOf (xref f)) in Hge.
  destruct (Nat.leb_spec (Size (xref f)) (nextUnusedOf (xref f))) as [Hout|Hin].
  - eexists. reflexivity.
  - destruct (lookup_lt_is_Some_2 (xref f) _ Hin) as [entry Hentry].
    assert (H0 : (0 < length (xref f))%nat) by (unfold Size in Hin; lia).
    destruct (lookup_lt_is_Some_2 (xref f) 0 H0) as [head Hhead].
    rewrite (At_Some _ _ _ Hentry), (At_Some _ _ _ Hhead). cbn [bind].
    assert (Hentry' : assign 0 (setByteOffset (byteOffset entry)) (xref f)
                        !! nextUnusedOf (xref f) = Some entry).
    { rewrite lookup_assign. case_decide; [lia | exact Hentry]. }
    rewrite (At_Some _ _ _ Hentry'). cbn [bind]. eexists. reflexivity.
Qed.

Lemma AddObjectAt_Ok (f f' : file) (object : ObjectNumber) (o : Object) :
  AddObjectAt f object o = Ok f' ->
  exists entry,
    xref f !! N.to_nat (number object) = Some entry /\
    byteOffset entry = 0 /\
    generation entry = objGeneration object /\
    isOpen (osfile f') = isOpen (osfile f) /\
    xref f' = assign (N.to_nat (number object)) (setByteOffset (Seek (Flush f))) (xref f).
Proof.
  unfold AddObjectAt.
  destruct (xref f !! N.to_nat (number object)) as [entry|] eqn:Hentry;
    [rewrite (At_Some _ _ _ Hentry) | unfold At; rewrite Hentry; discriminate].
  cbn [bind].
  destruct (N.eqb_spec (byteOffset entry) 0) as [Hzero|]; [|discriminate].
  destruct (N.eqb_spec (generation entry) (objGeneration object)) as [Hgen|]; [|discriminate].
  cbn [negb]. intros H. injection H as <-.
  exists entry. repeat split; try assumption.
  - unfold Flush. destruct (isOpen (osfile f)) eqn:Ho; simpl; auto.
  - simpl. unfold Flush. destruct (isOpen (osfile f)); reflexivity.
Qed.

Lemma Close_returns (f : file) :
  Close f = Some (Ok (closeHandle (Flush (WriteString (xrefText (xref f)) f)))).
Proof. unfold Close. rewrite writeXref_returns. reflexivity. Qed.

Lemma xref_Flush (f : file) : xref (Flush f) = xref f.
Proof. unfold Flush. destruct (isOpen (osfile f)); reflexivity. Qed.

Lemma Close_Ok (f f' : file) :
  Close f = Some (Ok f') ->
  xref f' = xref f /\ isOpen (osfile f') = false.
Proof.
  rewrite Close_returns. intros H. injection H as <-. split; [|reflexivity].
  simpl. rewrite xref_Flush. reflexivity.
Qed.

(** The table after a [DeleteObject] that returned, as the assignments of
    the source. *)
Lemma DeleteObject_xref (f f' : file) (object : ObjectNumber) :
  DeleteObject f object = Ok f' ->
  exists head,
    xref f !! 0%nat = Some head /\
    xref f' =
      assign (N.to_nat (number object)) (setDirty true)
        (assign (N.to_nat (number object)) (setInUse false)
           (assign (N.to_nat (number object))
              (fun e => if generation e <? 65535
                        then setGeneration (generation e + 1) e else e)
              (assign 0 (setByteOffset (number object))
                 (assign (N.to_nat (number object)) (setByteOffset (byteOffset head))
                    (xref f))))).
Proof.
  unfold DeleteObject.
  destruct (At (xref f) (N.to_nat (number object))) as [entry|]; [|discriminate].
  cbn [bind]. destruct (negb _); [discriminate|].
  destruct (xref f !! 0%nat) as [head|] eqn:Hhead;
    [rewrite (At_Some _ _ _ Hhead) | unfold At; rewrite Hhead; discriminate].
  cbn [bind]. intros H. injection H as <-. exists head. split; reflexivity.
Qed.

(** ** Invariants of the reachable states *)

(** A property of slot 0 that an assignment keeps. *)
Lemma head_assign (x : list xrefEntry) (i : nat) (upd : xrefEntry -> xrefEntry) :
  (forall e, inUse e = false -> generation e = 65535 ->
             inUse (upd e) = false /\ generation (upd e) = 65535) ->
  (exists head, x !! 0%nat = Some head /\ inUse head = false /\ generation head = 65535) ->
  exists head, assign i upd x !! 0%nat = Some head /\
               inUse head = false /\ generation head = 65535.
Proof.
  intros Hupd (head & Hhead & Hu & Hg). rewrite lookup_assign.
  case_decide.
  - rewrite Hhead. exists (upd head). split; [reflexivity|]. apply Hupd; assumption.
  - exists head. repeat split; assumption.
Qed.

Lemma head_assign_ne (x : list xrefEntry) (i : nat) (upd : xrefEntry -> xrefEntry) :
  i <> 0%nat ->
  (exists head, x !! 0%nat = Some head /\ inUse head = false /\ generation head = 65535) ->
  exists head, assign i upd x !! 0%nat = Some head /\
               inUse head = false /\ generation head = 65535.
Proof.
  intros Hi (head & Hhead & Hu & Hg). rewrite lookup_assign.
  case_decide; [contradiction|]. exists head. repeat split; assumption.
Qed.

Lemma reachable_invariant (f : file) : reachable f -> invariant f.
Proof.
  induction 1 as [|f o f' on Hf IH Hr|f on o f' Hf IH Ha|f on f' Hf IH Hd|f f' Hf IH Hc].
  - split.
    + eexists. split; [reflexivity|]. split; reflexivity.
    + repeat constructor.
    + repeat constructor. simpl. lia.
  - destruct IH as [Hhead Hdirty Hgen].
    destruct (ReserveObjectNumber_Ok _ _ _ _ Hr)
      as (_ & _ & _ & [(_ & _ & Hx)|(entry & head & Hlt & _ & _ & _ & Hx)]).
    + split; rewrite Hx.
      * destruct Hhead as (head & Hhead & Hu & Hg). exists head.
        split; [apply lookup_app_l_Some; exact Hhead | split; assumption].
      * apply Forall_app_2; [exact Hdirty | repeat constructor].
      * apply Forall_app_2; [exact Hgen | repeat constructor; simpl; lia].
    + pose proof (scanFrom_ge taken (xref f) 1) as Hge.
      fold (nextUnusedOf (xref f)) in Hge. split; rewrite Hx.
      * apply head_assign_ne; [lia|]. apply head_assign; [|exact Hhead].
        intros e Hu Hg. split; assumption.
      * repeat apply Forall_assign; try exact Hdirty; intros e He; exact He.
      * repeat apply Forall_assign; try exact Hgen; intros e He; exact He.
  - destruct IH as [Hhead Hdirty Hgen].
    destruct (AddObjectAt_Ok _ _ _ _ Ha) as (entry & _ & _ & _ & _ & Hx).
    split; rewrite Hx.
    + apply head_assign; [|exact Hhead]. intros e Hu Hg. split; assumption.
    + apply Forall_assign; [exact Hdirty | intros e He; exact He].
    + apply Forall_assign; [exact Hgen | intros e He; exact He].
  - destruct IH as [Hhead Hdirty Hgen].
    destruct (DeleteObject_xref _ _ _ Hd) as (head & _ & Hx). split; rewrite Hx.
    + repeat (apply head_assign; [|]); try exact Hhead;
        intros e Hu Hg; simpl;
        try (destruct (N.ltb_spec (generation e) 65535); [lia|]);
        split; first [assumption | reflexivity].
    + apply Forall_assign; [|intros e _; reflexivity].
      repeat apply Forall_assign; try exact Hdirty; try (intros e He; exact He).
      intros e He. destruct (generation e <? 65535); exact He.
    + repeat apply Forall_assign; try exact Hgen; try (intros e He; exact He).
      intros e He. simpl in *.
      destruct (N.ltb_spec (generation e) 65535); simpl; lia.
  - destruct (Close_Ok _ _ Hc) as [Hx _].
    destruct IH as [Hhead Hdirty Hgen]. split; rewrite Hx; assumption.
Qed.

(** ** The width of a record *)

Lemma length_zeros (k : nat) : String.length (zeros k) = k.
Proof. induction k as [|k IH]; simpl; [reflexivity | rewrite IH; reflexivity]. Qed.

(** A number below [10^k] is printed with at most [k] digits. *)
Lemma length_digits (fuel : nat) (n : N) (acc : string) (k : nat) :
  (1 <= k)%nat -> n < 10 ^ N.of_nat k ->
  (String.length (digits fuel n acc) <= k + String.length acc)%nat.
Proof.
  revert n acc k. induction fuel as [|fuel IH]; intros n acc k Hk Hn; simpl; [lia|].
  destruct (N.ltb_spec n 10) as [Hlt|Hge]; simpl; [lia|].
  destruct k as [|[|k]]; [lia | change (10 ^ N.of_nat 1) with 10 in Hn; lia |].
  specialize (IH (n / 10) (String (digit (n mod 10)) acc) (S k)).
  simpl String.length in IH.
  assert (Hdiv : n / 10 < 10 ^ N.of_nat (S k)).
  { apply N.Div0.div_lt_upper_bound.
    replace (N.of_nat (S (S k))) with (N.succ (N.of_nat (S k))) in Hn by lia.
    rewrite N.pow_succ_r' in Hn. exact Hn. }
  specialize (IH ltac:(lia) Hdiv). lia.
Qed.

Lemma length_decimal (n : N) (k : nat) :
  (1 <= k)%nat -> n < 10 ^ N.of_nat k -> (String.length (decimal n) <= k)%nat.
Proof.
  intros Hk Hn. unfold decimal.
  pose proof (length_digits (S (N.to_nat (N.log2 n))) n "" k Hk Hn) as H.
  change (String.length "") with 0%nat in H. lia.
Qed.

Lemma length_decimal0 (w : nat) (n : N) :
  (1 <= w)%nat -> n < 10 ^ N.of_nat w -> String.length (decimal0 w n) = w.
Proof.
  intros Hw Hn. unfold decimal0. rewrite length_append, length_zeros.
  pose proof (length_decimal n w Hw Hn). lia.
Qed.

(** A record is 20 bytes long when the offset has at most ten digits and the
    generation at most five. *)
Lemma length_xrefEntry_Serialize (e : xrefEntry) :
  byteOffset e < 10 ^ 10 -> generation e <= 65535 ->
  String.length (xrefEntry_Serialize e) = 20%nat.
Proof.
  intros Ho Hg. unfold xrefEntry_Serialize.
  rewrite !length_append.
  rewrite (length_decimal0 10) by (try exact Ho; lia).
  rewrite (length_decimal0 5) by (try lia; change (N.of_nat 5) with 5; lia).
  reflexivity.
Qed.

(** ** A table without clean entries, a table without dirty entries *)

Lemma segmentsLoop_done (fuel : nat) (x : list xrefEntry) (s l : nat) :
  (Size x <= s)%nat -> segmentsLoop fuel x s l = [].
Proof.
  intros Hle. destruct fuel; simpl;
    destruct (Nat.leb_spec (Size x) s); try reflexivity; lia.
Qed.

Lemma segments_all_dirty (x : list xrefEntry) :
  Forall (fun e => dirty e = true) x -> x <> [] ->
  segments x = [(0%nat, Size x)].
Proof.
  intros Hall Hne.
  assert (Hd : forall j, (j < Size x)%nat -> holds_at dirty x j).
  { intros j Hj. destruct (lookup_lt_is_Some_2 x j Hj) as [e He].
    exists e. split; [exact He | exact (Forall_lookup_1 _ _ _ _ Hall He)]. }
  assert (Hend : forall c, ~ holds_at c x (Size x)).
  { intros c (e & He & _). apply lookup_lt_Some in He. unfold Size in He. lia. }
  assert (Hpos : (0 < Size x)%nat).
  { destruct x; [contradiction | unfold Size; simpl; lia]. }
  assert (H0 : nextSegment x 0 = (0%nat, Size x)).
  { unfold nextSegment. change (fun e : xrefEntry => negb (dirty e)) with clean.
    rewrite (scanFrom_unique clean x 0 0); [| lia | intros j Hj; lia |].
    - rewrite (scanFrom_unique dirty x 0 (Size x)); [| lia | intros j Hj; apply Hd; lia | apply Hend].
      f_equal. lia.
    - intros Hc. apply (clean_not_dirty x 0 Hc). apply Hd. exact Hpos. }
  assert (H1 : nextSegment x (0 + Size x) = (Size x, 0%nat)).
  { unfold nextSegment. change (fun e : xrefEntry => negb (dirty e)) with clean.
    rewrite (scanFrom_unique clean x (0 + Size x) (Size x));
      [| lia | intros j Hj; lia | apply Hend].
    rewrite (scanFrom_unique dirty x (Size x) (Size x));
      [| lia | intros j Hj; lia | apply Hend].
    f_equal. lia. }
  unfold segments. rewrite H0, segmentsLoop_S.
  destruct (Nat.leb_spec (Size x) 0) as [Hle|_]; [lia|].
  rewrite H1. cbn [fst snd].
  rewrite segmentsLoop_done by lia. reflexivity.
Qed.

Lemma segments_none_dirty (x : list xrefEntry) :
  Forall (fun e => dirty e = false) x -> segments x = [].
Proof.
  intros Hall. destruct (segments x) as [|[s l] rest] eqn:Hsegs; [reflexivity|].
  exfalso.
  assert (Hin : (s, l) ∈ segments x) by (rewrite Hsegs; apply elem_of_cons; left; reflexivity).
  apply segments_runs in Hin. destruct Hin as (Hl & Hrun & _).
  destruct (Hrun s) as (e & He & Hd); [lia|].
  pose proof (Forall_lookup_1 _ _ _ _ Hall He) as Hc. simpl in Hc. congruence.
Qed.

(** ** What the printed digits denote *)

Lemma digitValue_digit (d : N) : d < 10 -> digitValue (digit d) = d.
Proof.
  intros Hd. unfold digitValue, digit.
  rewrite N_ascii_embedding by lia. lia.
Qed.

Lemma numeralFrom_append (v : N) (a b : string) :
  numeralFrom v (a ++ b) = numeralFrom (numeralFrom v a) b.
Proof. revert v. induction a as [|c a IH]; intros v; simpl; [reflexivity | apply IH]. Qed.

Lemma digits_acc (fuel : nat) (n : N) (acc : string) :
  digits fuel n acc = digits fuel n "" ++ acc.
Proof.
  revert n acc. induction fuel as [|fuel IH]; intros n acc; simpl; [reflexivity|].
  destruct (n <? 10); [reflexivity|].
  rewrite (IH _ (String _ acc)), (IH _ (String _ "")).
  rewrite append_assoc. reflexivity.
Qed.

Lemma numeralFrom_digits (fuel : nat) (n v : N) :
  n < 10 ^ N.of_nat fuel ->
  numeralFrom v (digits fuel n "") = v * 10 ^ N.of_nat (String.length (digits fuel n "")) + n.
Proof.
  revert n v. induction fuel as [|fuel IH]; intros n v Hn.
  - change (10 ^ N.of_nat 0) with 1 in Hn. simpl. lia.
  - simpl. destruct (N.ltb_spec n 10) as [Hlt|Hge].
    + simpl. rewrite N.mod_small by exact Hlt.
      rewrite digitValue_digit by exact Hlt. change (10 ^ N.of_nat 1) with 10. lia.
    + assert (Hdiv : n / 10 < 10 ^ N.of_nat fuel).
      { apply N.Div0.div_lt_upper_bound.
        replace (N.of_nat (S fuel)) with (N.succ (N.of_nat fuel)) in Hn by lia.
        rewrite N.pow_succ_r' in Hn. exact Hn. }
      rewrite digits_acc, numeralFrom_append, (IH _ _ Hdiv), length_append.
      simpl. rewrite digitValue_digit by (apply N.mod_lt; lia).
      replace (N.of_nat (String.length (digits fuel (n / 10) "") + 1))
        with (N.succ (N.of_nat (String.length (digits fuel (n / 10) "")))) by lia.
      rewrite N.pow_succ_r'.
      pose proof (N.div_mod n 10 ltac:(lia)) as Hdm. nia.
Qed.

(** [decimal] prints all the digits: the string denotes the number. *)
Lemma numeral_decimal (n : N) : numeral (decimal n) = n.
Proof.
  unfold numeral, decimal. rewrite numeralFrom_digits; [lia|].
  destruct (N.eq_dec n 0) as [->|Hn]; [reflexivity|].
  destruct (N.log2_spec n ltac:(lia)) as [_ Hlt].
  eapply N.lt_le_trans; [exact Hlt|].
  rewrite Nat2N.inj_succ, N2Nat.id.
  apply N.pow_le_mono_l. lia.
Qed.

Lemma numeralFrom_zeros (k : nat) (s : string) : numeralFrom 0 (zeros k ++ s) = numeralFrom 0 s.
Proof. induction k as [|k IH]; simpl; [reflexivity | exact IH]. Qed.

Lemma numeral_decimal0 (w : nat) (n : N) : numeral (decimal0 w n) = n.
Proof. unfold numeral, decimal0. rewrite numeralFrom_zeros. apply numeral_decimal. Qed.

(** ** The index written on close (C9) *)

(** C9, as amended.  [writeXref] returns without a panic and writes the
    keyword line ["xref"] followed by the text of its segments, one after the
    other.  The segments are exactly the maximal runs of dirty entries, each
    once and in ascending order of index, so entries that are not dirty are
    not written.  The text of a segment is its header line (start index and
    number of entries) followed by the records of its entries in ascending
    order of index.  A record gives the offset padded with zeros to at least
    ten digits, the generation padded to at least five, and [n] for an entry
    in use, [f] otherwise; the digits printed denote the number printed; the
    record is 20 bytes long when the offset is below [10^10].  For a table
    without dirty entries only the keyword line is written. *)
Theorem writeXref_index (f : file) :
  writeXref f =
    Some (Ok (WriteString
                ("xref" ++ nl ++
                 concatenate (map (segmentText (xref f)) (segments (xref f)))) f)) /\
  (forall s l, (s, l) ∈ segments (xref f) <-> maximal_run (xref f) s l) /\
  StronglySorted before (segments (xref f)) /\
  (forall s l,
     segmentText (xref f) (s, l) =
       decimal (N.of_nat s) ++ " " ++ decimal (N.of_nat l) ++ nl ++
       concatenate (map xrefEntry_Serialize (take l (drop s (xref f))))) /\
  (forall e,
     xrefEntry_Serialize e =
       decimal0 10 (byteOffset e) ++ " " ++ decimal0 5 (generation e) ++ " " ++
       (if inUse e then "n" else "f") ++ " " ++ nl) /\
  (forall (w : nat) (n : N), numeral (decimal n) = n /\ numeral (decimal0 w n) = n) /\
  (forall e, byteOffset e < 10 ^ 10 -> generation e <= 65535 ->
     String.length (xrefEntry_Serialize e) = 20%nat) /\
  (Forall (fun e => dirty e = false) (xref f) ->
     writeXref f = Some (Ok (WriteString ("xref" ++ nl) f))).
Proof.
  split; [apply writeXref_returns|].
  split; [apply segments_runs|].
  split; [apply segments_sorted|].
  split; [reflexivity|].
  split; [intros e; unfold xrefEntry_Serialize; destruct (inUse e); reflexivity|].
  split; [intros w n; split; [apply numeral_decimal | apply numeral_decimal0]|].
  split; [apply length_xrefEntry_Serialize|].
  intros Hclean. rewrite writeXref_returns. unfold xrefText.
  rewrite (segments_none_dirty _ Hclean). reflexivity.
Qed.

Lemma writeXref_index_witness :
  let f := mkFile mixedTable (mkOsFile "" true) "" in
  segments (xref f) = [(0%nat, 2%nat); (3%nat, 1%nat)] /\
  maximal_run (xref f) 3 1 /\
  String.length (xrefEntry_Serialize (mkXrefEntry 29 0 true true)) = 20%nat /\
  writeXref (mkFile [mkXrefEntry 0 1 false false] (mkOsFile "" true) "")
    = Some (Ok (mkFile [mkXrefEntry 0 1 false false] (mkOsFile "" true) ("xref" ++ nl))).
Proof.
  intros f.
  destruct (writeXref_index f) as (_ & Hruns & _ & _ & _ & _ & Hwidth & _).
  split; [reflexivity|].
  split.
  - apply Hruns. apply elem_of_cons. right. apply elem_of_cons. left. reflexivity.
  - split.
    + apply Hwidth; [reflexivity | discriminate].
    + destruct (writeXref_index (mkFile [mkXrefEntry 0 1 false false] (mkOsFile "" true) ""))
        as (_ & _ & _ & _ & _ & _ & _ & Hnone).
      apply Hnone. repeat constructor.
Defined.

(** C9 as stated fails on the width of a record: an offset of [10^10], which
    the 64-bit field holds, is written with eleven digits, and the record is
    21 bytes long. *)
Lemma record_not_fixed_width :
  ~ (forall x : list xrefEntry, forall e, e ∈ x ->
       String.length (decimal0 10 (byteOffset e)) = 10%nat /\
       String.length (xrefEntry_Serialize e) = 20%nat).
Proof.
  intros H.
  destruct (H [mkXrefEntry (10 ^ 10) 0 true true] (mkXrefEntry (10 ^ 10) 0 true true))
    as [H10 _].
  - apply elem_of_cons. left. reflexivity.
  - vm_compute in H10. discriminate H10.
Qed.

(** ** Dirty entries stay dirty (C10) *)

Lemma holds_at_assign (c : xrefEntry -> bool) (x : list xrefEntry) (i j : nat)
    (upd : xrefEntry -> xrefEntry) :
  (forall e, c e = true -> c (upd e) = true) ->
  holds_at c x j -> holds_at c (assign i upd x) j.
Proof.
  intros Hupd (e & He & Hc). unfold holds_at. rewrite lookup_assign, He.
  case_decide.
  - exists (upd e). split; [reflexivity | apply Hupd; exact Hc].
  - exists e. split; [reflexivity | exact Hc].
Qed.

Lemma dirty_stays_Reserve (f f' : file) (o : Object) (on : ObjectNumber) (i : nat) :
  ReserveObjectNumber f o = Ok (f', on) ->
  holds_at dirty (xref f) i -> holds_at dirty (xref f') i.
Proof.
  intros Hr Hi.
  destruct (ReserveObjectNumber_Ok _ _ _ _ Hr)
    as (_ & _ & _ & [(_ & _ & Hx)|(entry & head & _ & _ & _ & _ & Hx)]); rewrite Hx.
  - destruct Hi as (e & He & Hd). exists e.
    split; [apply lookup_app_l_Some; exact He | exact Hd].
  - repeat apply holds_at_assign; try exact Hi; intros e He; exact He.
Qed.

Lemma dirty_stays_AddObjectAt (f f' : file) (on : ObjectNumber) (o : Object) (i : nat) :
  AddObjectAt f on o = Ok f' ->
  holds_at dirty (xref f) i -> holds_at dirty (xref f') i.
Proof.
  intros Ha Hi. destruct (AddObjectAt_Ok _ _ _ _ Ha) as (entry & _ & _ & _ & _ & Hx).
  rewrite Hx. apply holds_at_assign; [intros e He; exact He | exact Hi].
Qed.

Lemma dirty_stays_DeleteObject (f f' : file) (on : ObjectNumber) (i : nat) :
  DeleteObject f on = Ok f' ->
  holds_at dirty (xref f) i -> holds_at dirty (xref f') i.
Proof.
  intros Hd Hi. destruct (DeleteObject_xref _ _ _ Hd) as (head & _ & Hx). rewrite Hx.
  repeat apply holds_at_assign; try exact Hi; try (intros e He; exact He).
  - intros e _. reflexivity.
  - intros e He. destruct (generation e <? 65535); exact He.
Qed.

(** No call clears the dirty flag of an entry. *)
Lemma dirty_stays (f f' : file) (c : call) (i : nat) :
  step f c = Some f' ->
  holds_at dirty (xref f) i -> holds_at dirty (xref f') i.
Proof.
  destruct c as [o|on o|o|on|]; simpl.
  - destruct (ReserveObjectNumber f o) as [[f1 on1]|p] eqn:Hr; intros H; inversion H; subst.
    eapply dirty_stays_Reserve; eassumption.
  - destruct (AddObjectAt f on o) as [f1|p] eqn:Ha; intros H; inversion H; subst.
    eapply dirty_stays_AddObjectAt; eassumption.
  - unfold AddObject.
    destruct (ReserveObjectNumber f o) as [[f1 on1]|p] eqn:Hr; simpl; [|discriminate].
    destruct (AddObjectAt f1 on1 o) as [f2|p] eqn:Ha; simpl; intros H; inversion H; subst.
    intros Hi. eapply dirty_stays_AddObjectAt; [eassumption|].
    eapply dirty_stays_Reserve; eassumption.
  - destruct (DeleteObject f on) as [f1|p] eqn:Hd; intros H; inversion H; subst.
    eapply dirty_stays_DeleteObject; eassumption.
  - destruct (Close f) as [[f1|p]|] eqn:Hc; intros H; inversion H; subst.
    destruct (Close_Ok _ _ Hc) as [Hx _]. rewrite Hx. auto.
Qed.

Lemma recordLine_Serialize (e : xrefEntry) : xrefEntry_Serialize e = recordLine e.
Proof. unfold xrefEntry_Serialize, recordLine. destruct (inUse e); reflexivity. Qed.

Lemma wholeTableIndex_text (x : list xrefEntry) : wholeTableText x = wholeTableIndex x.
Proof.
  unfold wholeTableText, wholeTableIndex, Size.
  rewrite (map_ext _ _ recordLine_Serialize). reflexivity.
Qed.

(** C10.  In a reachable state every entry of the table is dirty, and no
    call clears the dirty flag of an entry; so the index is one segment that
    starts at index 0 and holds every entry of the table.  [writeXref] returns
    and, on an open file, adds to the bytes written so far the keyword line,
    the header line [0 n] for a table of [n] entries and the records of all
    the entries in order; [Close] returns, leaves the table as it is and closes
    the handle, and the file it leaves holds the bytes written before it
    followed by that index.  On a file that was closed before, [Close] leaves
    the bytes of the file as they are. *)
Theorem dirty_is_permanent (f : file) :
  reachable f ->
  Forall (fun e => dirty e = true) (xref f) /\
  (forall c f' i, step f c = Some f' ->
     holds_at dirty (xref f) i -> holds_at dirty (xref f') i) /\
  segments (xref f) = [(0%nat, Size (xref f))] /\
  (exists f1, writeXref f = Some (Ok f1) /\ xref f1 = xref f /\
     (isOpen (osfile f) = true ->
      written f1 = written f ++ wholeTableIndex (xref f))) /\
  (exists f2, Close f = Some (Ok f2) /\ xref f2 = xref f /\
     isOpen (osfile f2) = false /\
     (isOpen (osfile f) = true ->
      contents (osfile f2) = written f ++ wholeTableIndex (xref f)) /\
     (isOpen (osfile f) = false ->
      contents (osfile f2) = contents (osfile f))).
Proof.
  intros Hf. destruct (reachable_invariant f Hf) as [(head & Hhead & _) Hdirty _].
  assert (Hne : xref f <> []) by (intros Hnil; rewrite Hnil in Hhead; discriminate Hhead).
  pose proof (segments_all_dirty _ Hdirty Hne) as Hsegs.
  assert (Htext : xrefText (xref f) = wholeTableIndex (xref f)).
  { rewrite <- wholeTableIndex_text. unfold xrefText, wholeTableText. rewrite Hsegs.
    unfold segmentText, entriesText.
    cbn [map fst snd concatenate foldr]. rewrite drop_0.
    unfold Size. rewrite firstn_all. rewrite append_nil_r. reflexivity. }
  split; [exact Hdirty|].
  split; [intros c f' i; apply dirty_stays|].
  split; [exact Hsegs|].
  split.
  - eexists. split; [apply writeXref_returns|]. split; [reflexivity|].
    intros _. unfold written. cbn [WriteString osfile writer].
    rewrite Htext, append_assoc. reflexivity.
  - eexists. split; [apply Close_returns|].
    split; [simpl; rewrite xref_Flush; reflexivity|].
    split; [reflexivity|].
    unfold Flush, written. cbn [WriteString osfile writer closeHandle xref].
    split; intros Hopen; rewrite Hopen; cbn [osfile contents]; [|reflexivity].
    rewrite Htext, append_assoc. reflexivity.
Qed.

Lemma dirty_is_permanent_witness :
  exists f f2,
    run NewFile twoWrittenOneDeleted = Some f /\
    Forall (fun e => dirty e = true) (xref f) /\
    Close f = Some (Ok f2) /\
    contents (osfile f2) =
      "%PDF-1.4" ++ nl ++
      "1 0 obj" ++ nl ++ "null" ++ nl ++ "endobj" ++ nl ++
      "2 0 obj" ++ nl ++ "null" ++ nl ++ "endobj" ++ nl ++
      "xref" ++ nl ++
      "0 3" ++ nl ++
      "0000000001 65535 f " ++ nl ++
      "0000000000 00001 f " ++ nl ++
      "0000000029 00000 n " ++ nl.
Proof.
  destruct (run NewFile twoWrittenOneDeleted) as [f|] eqn:Hrun; [|discriminate Hrun].
  assert (Hreach : reachable f) by (eapply run_reachable; [apply reach_NewFile | exact Hrun]).
  destruct (dirty_is_permanent f Hreach) as (Hd & _ & _ & _ & f2 & Hc & _ & _ & Hopen & _).
  exists f, f2. split; [reflexivity|]. split; [exact Hd|]. split; [exact Hc|].
  vm_compute in Hrun. injection Hrun as <-.
  rewrite (Hopen eq_refl). reflexivity.
Defined.

(** ** Close (C6) *)

(** [DeleteObject], [ReserveObjectNumber] and the checks of [AddObjectAt]
    read the table only. *)
Lemma DeleteObject_table (f g : file) (object : ObjectNumber) :
  xref g = xref f ->
  DeleteObject g object =
    match DeleteObject f object with
    | Ok f' => Ok (setXref (xref f') g)
    | Panic p => Panic p
    end.
Proof.
  intros Hx. unfold DeleteObject. rewrite Hx.
  destruct (At (xref f) (N.to_nat (number object))) as [entry|p]; [|reflexivity].
  cbn [bind]. destruct (negb _); [reflexivity|].
  destruct (At (xref f) 0) as [head|p]; reflexivity.
Qed.

Lemma ReserveObjectNumber_table (f g : file) (o : Object) :
  xref g = xref f ->
  ReserveObjectNumber g o =
    match ReserveObjectNumber f o with
    | Ok (f', on) => Ok (setXref (xref f') g, on)
    | Panic p => Panic p
    end.
Proof.
  intros Hx. unfold ReserveObjectNumber. rewrite Hx.
  destruct (Size (xref f) <=? _)%nat; [reflexivity|].
  destruct (At (xref f) _) as [entry|p]; [|reflexivity]. cbn [bind].
  destruct (At (xref f) 0) as [head|p]; [|reflexivity]. cbn [bind].
  destruct (At _ _) as [entry'|p]; reflexivity.
Qed.

Lemma AddObjectAt_table (f g : file) (object : ObjectNumber) (o : Object) :
  xref g = xref f ->
  (forall p, AddObjectAt g object o = Panic p <-> AddObjectAt f object o = Panic p) /\
  (succeeds (AddObjectAt g object o) <-> succeeds (AddObjectAt f object o)).
Proof.
  intros Hx. unfold AddObjectAt, succeeds. rewrite Hx.
  destruct (At (xref f) (N.to_nat (number object))) as [entry|p]; cbn [bind].
  - destruct (negb (byteOffset entry =? 0)); [split; [intros p|]; tauto|].
    destruct (negb (generation entry =? objGeneration object)); [split; [intros p|]; tauto|].
    split.
    + intros p. split; intros H; discriminate H.
    + split; intros _; eexists; reflexivity.
  - split; [intros q|]; tauto.
Qed.

Lemma AddObject_table (f g : file) (o : Object) :
  xref g = xref f -> succeeds (AddObject g o) <-> succeeds (AddObject f o).
Proof.
  intros Hx. unfold AddObject. rewrite (ReserveObjectNumber_table f g o Hx).
  destruct (ReserveObjectNumber f o) as [[f' on]|p]; cbn [bind].
  - destruct (AddObjectAt_table f' (setXref (xref f') g) on o eq_refl) as [_ Hs].
    unfold succeeds in *.
    destruct (AddObjectAt (setXref (xref f') g) on o) as [g2|p2];
      destruct (AddObjectAt f' on o) as [f2|p1]; cbn [bind].
    + split; intros _; eexists; reflexivity.
    + split; [intros _ | intros [a Ha]; discriminate Ha].
      destruct Hs as [Hs _]. destruct Hs as [a Ha]; [eexists; reflexivity | discriminate Ha].
    + split; [intros [a Ha]; discriminate Ha | intros _].
      destruct Hs as [_ Hs]. destruct Hs as [a Ha]; [eexists; reflexivity | discriminate Ha].
    + split; intros [a Ha]; discriminate Ha.
  - split; intros [a Ha]; discriminate Ha.
Qed.

Lemma AddObject_table_panic (f g : file) (o : Object) (p : panic) :
  xref g = xref f -> AddObject g o = Panic p <-> AddObject f o = Panic p.
Proof.
  intros Hx. unfold AddObject. rewrite (ReserveObjectNumber_table f g o Hx).
  destruct (ReserveObjectNumber f o) as [[f' on]|p']; cbn [bind]; [|tauto].
  destruct (AddObjectAt_table f' (setXref (xref f') g) on o eq_refl) as [Hp _].
  specialize (Hp p).
  destruct (AddObjectAt (setXref (xref f') g) on o) as [g2|p2];
    destruct (AddObjectAt f' on o) as [f2|p1]; cbn [bind].
  - split; intros H; discriminate H.
  - split; [intros H; discriminate H|]. intros H. injection H as ->.
    destruct Hp as [_ Hp]. discriminate (Hp eq_refl).
  - split; [|intros H; discriminate H]. intros H. injection H as ->.
    destruct Hp as [Hp _]. discriminate (Hp eq_refl).
  - split; intros H; injection H as ->.
    + destruct Hp as [Hp _]. injection (Hp eq_refl) as ->. reflexivity.
    + destruct Hp as [_ Hp]. injection (Hp eq_refl) as ->. reflexivity.
Qed.

(** On a closed handle no call changes the file or opens the handle. *)
Lemma step_closed (f f' : file) (c : call) :
  isOpen (osfile f) = false -> step f c = Some f' -> osfile f' = osfile f.
Proof.
  intros Hclosed.
  assert (Hflush : Flush f = f) by (unfold Flush; rewrite Hclosed; reflexivity).
  assert (Hadd : forall g on o g', osfile g = osfile f ->
            AddObjectAt g on o = Ok g' -> osfile g' = osfile f).
  { intros g on o g' Hg. unfold AddObjectAt.
    destruct (At (xref g) (N.to_nat (number on))) as [entry|]; [|discriminate].
    cbn [bind]. destruct (negb _); [discriminate|]. destruct (negb _); [discriminate|].
    intros H. injection H as <-. cbn [WriteString setXref osfile].
    unfold Flush. rewrite Hg, Hclosed. exact Hg. }
  destruct c as [o|on o|o|on|]; simpl.
  - destruct (ReserveObjectNumber f o) as [[f1 on1]|p] eqn:Hr; intros H; inversion H; subst.
    destruct (ReserveObjectNumber_Ok _ _ _ _ Hr) as (Ho & _). exact Ho.
  - destruct (AddObjectAt f on o) as [f1|p] eqn:Ha; intros H; inversion H; subst.
    apply (Hadd f on o f' eq_refl Ha).
  - unfold AddObject.
    destruct (ReserveObjectNumber f o) as [[f1 on1]|p] eqn:Hr; simpl; [|discriminate].
    destruct (AddObjectAt f1 on1 o) as [f2|p] eqn:Ha; simpl; intros H; inversion H; subst.
    destruct (ReserveObjectNumber_Ok _ _ _ _ Hr) as (Ho & _).
    apply (Hadd f1 on1 o f' Ho Ha).
  - destruct (DeleteObject f on) as [f1|p] eqn:Hd; intros H; inversion H; subst.
    destruct (DeleteObject_Ok _ _ _ Hd) as (_ & _ & _ & _ & _ & Ho & _). exact Ho.
  - rewrite Close_returns. intros H. injection H as <-.
    unfold Flush, closeHandle. cbn [WriteString osfile]. rewrite Hclosed.
    cbn [osfile contents]. clear Hflush Hadd.
    destruct f as [x [c b] w]. simpl in *. subst b. reflexivity.
Qed.

Lemma run_closed (cs : list call) (f g : file) :
  isOpen (osfile f) = false -> run f cs = Some g -> osfile g = osfile f.
Proof.
  revert f. induction cs as [|c cs IH]; intros f Hclosed; simpl.
  - intros H. injection H as <-. reflexivity.
  - destruct (step f c) as [f1|] eqn:Hs; [|discriminate].
    pose proof (step_closed f f1 c Hclosed Hs) as Ho.
    intros Hrun. rewrite (IH f1); [exact Ho | rewrite Ho; exact Hclosed | exact Hrun].
Qed.

(** C6, as amended.  [file] keeps no record of having been closed and no
    call panics for that reason.  In every state [g] reached after a [Close]
    by calls that returned, however many: the handle is closed and the bytes of
    the file are those the [Close] left, so the index is not written to the
    file again; [Close] returns once more and leaves the table as it is; and
    [DeleteObject], [AddObjectAt] and [AddObject] return or panic exactly as
    the same call does on any file [h] with the same table, open or not, by the
    checks of the index, the generation and the offset, [DeleteObject] changing
    the table in the same way.  On the closed file an [AddObjectAt] that
    returned has recorded the offset 0, so the same object number is accepted
    again. *)
Theorem Close_keeps_no_closed_state (f f1 g : file) (cs : list call) :
  Close f = Some (Ok f1) ->
  run f1 cs = Some g ->
  isOpen (osfile g) = false /\
  contents (osfile g) = contents (osfile f1) /\
  (exists g', Close g = Some (Ok g') /\
              xref g' = xref g /\ contents (osfile g') = contents (osfile g)) /\
  (forall h object,
     xref h = xref g ->
     DeleteObject g object =
       match DeleteObject h object with
       | Ok h' => Ok (setXref (xref h') g)
       | Panic p => Panic p
       end) /\
  (forall h object o,
     xref h = xref g ->
     (forall p, AddObjectAt g object o = Panic p <-> AddObjectAt h object o = Panic p) /\
     (succeeds (AddObjectAt g object o) <-> succeeds (AddObjectAt h object o))) /\
  (forall h o,
     xref h = xref g ->
     (forall p, AddObject g o = Panic p <-> AddObject h o = Panic p) /\
     (succeeds (AddObject g o) <-> succeeds (AddObject h o))) /\
  (forall object o o' g1,
     AddObjectAt g object o = Ok g1 -> succeeds (AddObjectAt g1 object o')).
Proof.
  intros Hc Hrun. destruct (Close_Ok _ _ Hc) as [_ Hclosed1].
  pose proof (run_closed cs f1 g Hclosed1 Hrun) as Ho.
  assert (Hclosed : isOpen (osfile g) = false) by (rewrite Ho; exact Hclosed1).
  split; [exact Hclosed|]. split; [rewrite Ho; reflexivity|].
  split; [|split; [|split; [|split]]].
  - eexists. split; [apply Close_returns|]. split.
    + simpl. rewrite xref_Flush. reflexivity.
    + simpl. unfold Flush. cbn [WriteString osfile]. rewrite Hclosed. reflexivity.
  - intros h object Hx. apply DeleteObject_table. symmetry. exact Hx.
  - intros h object o Hx. apply AddObjectAt_table. symmetry. exact Hx.
  - intros h o Hx. split.
    + intros p. apply AddObject_table_panic. symmetry. exact Hx.
    + apply AddObject_table. symmetry. exact Hx.
  - intros object o o' g1 Ha.
    destruct (AddObjectAt_Ok _ _ _ _ Ha) as (entry & Hentry & Hzero & Hgen & _ & Hx).
    assert (Hseek : Seek (Flush g) = 0).
    { unfold Flush, Seek. rewrite Hclosed, Hclosed. reflexivity. }
    rewrite Hseek in Hx.
    assert (He : xref g1 !! N.to_nat (number object) = Some (setByteOffset 0 entry)).
    { rewrite Hx, lookup_assign. case_decide; [|congruence]. rewrite Hentry. reflexivity. }
    unfold succeeds, AddObjectAt. rewrite (At_Some _ _ _ He). cbn [bind].
    cbn [setByteOffset byteOffset generation]. rewrite Hgen, !N.eqb_refl. cbn [negb].
    eexists. reflexivity.
Qed.

Lemma Close_keeps_no_closed_state_witness :
  exists f f1 g g1,
    run NewFile oneObject = Some f /\ Close f = Some (Ok f1) /\
    run f1 afterClose = Some g /\
    isOpen (osfile g) = false /\ contents (osfile g) = contents (osfile f1) /\
    contents (osfile g) =
      "%PDF-1.4" ++ nl ++
      "1 0 obj" ++ nl ++ "null" ++ nl ++ "endobj" ++ nl ++
      "xref" ++ nl ++
      "0 2" ++ nl ++
      "0000000000 65535 f " ++ nl ++
      "0000000009 00000 n " ++ nl /\
    AddObjectAt g (NewObjectNumber 2 0) Null = Ok g1 /\
    succeeds (AddObjectAt g1 (NewObjectNumber 2 0) Null).
Proof.
  destruct (run NewFile oneObject) as [f|] eqn:Hrun; [|discriminate Hrun].
  destruct (Close f) as [[f1|p]|] eqn:Hc;
    [| rewrite Close_returns in Hc; discriminate Hc
     | rewrite Close_returns in Hc; discriminate Hc].
  destruct (run f1 afterClose) as [g|] eqn:Hafter;
    [|vm_compute in Hrun; injection Hrun as <-;
      rewrite Close_returns in Hc; injection Hc as <-; discriminate Hafter].
  destruct (AddObjectAt g (NewObjectNumber 2 0) Null) as [g1|p] eqn:Ha;
    [|vm_compute in Hrun; injection Hrun as <-;
      rewrite Close_returns in Hc; injection Hc as <-;
      vm_compute in Hafter; injection Hafter as <-; discriminate Ha].
  exists f, f1, g, g1.
  destruct (Close_keeps_no_closed_state f f1 g afterClose Hc Hafter)
    as (Hclosed & Hbytes & _ & _ & _ & _ & Hagain).
  split; [reflexivity|]. split; [exact Hc|]. split; [exact Hafter|].
  split; [exact Hclosed|]. split; [exact Hbytes|].
  split; [|split; [exact Ha | apply (Hagain (NewObjectNumber 2 0) Null Null g1 Ha)]].
  rewrite Hbytes. vm_compute in Hrun. injection Hrun as <-.
  rewrite Close_returns in Hc. injection Hc as <-. reflexivity.
Defined.

(** C6 as stated fails: after [Close], [DeleteObject] with the current
    generation returns and changes the table. *)
Lemma DeleteObject_after_Close_returns :
  ~ (forall (f f1 : file) (object : ObjectNumber),
       reachable f -> Close f = Some (Ok f1) -> fails (DeleteObject f1 object)).
Proof.
  intros H.
  destruct (run NewFile oneObject) as [f|] eqn:Hrun; [|discriminate Hrun].
  assert (Hreach : reachable f) by (eapply run_reachable; [apply reach_NewFile | exact Hrun]).
  specialize (H f _ (NewObjectNumber 1 0) Hreach (Close_returns f)).
  destruct H as [p Hp].
  vm_compute in Hrun. injection Hrun as <-. discriminate Hp.
Qed.

(** ** Reuse after release (C8) *)

Lemma uint32_small (n : N) : n < 2 ^ 32 -> uint32 (N.to_nat n) = n.
Proof. intros Hn. unfold uint32. rewrite N2Nat.id. apply N.mod_small. exact Hn. Qed.

(** Where the search of [ReserveObjectNumber] stops: at the first index from
    1 on whose entry is free or at generation 65535, or at the size of the
    table. *)
Lemma nextUnusedOf_first (x : list xrefEntry) (k : nat) :
  (1 <= k)%nat ->
  (forall j, (1 <= j < k)%nat -> holds_at taken x j) ->
  ~ holds_at taken x k ->
  nextUnusedOf x = k.
Proof. intros Hk Hbefore Hstop. apply scanFrom_unique; assumption. Qed.

(** C8, as amended.  [ReserveObjectNumber] returns the lowest index from 1
    on whose entry is free or at generation 65535.  So after a
    [DeleteObject] of an object number at a generation below 65535, the next
    [ReserveObjectNumber] returns the same number with the generation one
    higher provided every entry at a lower index, from 1 on, is in use below
    generation 65535.  The scenario holds: on a new file the first
    reservation is [(1,0)], and after writing and deleting it the next is
    [(1,1)]. *)
Theorem reuse_after_release :
  (forall (f f1 : file) (object : ObjectNumber) (o : Object),
     DeleteObject f object = Ok f1 ->
     objGeneration object < 65535 ->
     1 <= number object < 2 ^ 32 ->
     (forall j, (1 <= j < N.to_nat (number object))%nat -> holds_at taken (xref f) j) ->
     exists f2,
       ReserveObjectNumber f1 o =
         Ok (f2, NewObjectNumber (number object) (objGeneration object + 1))) /\
  reuse_scenario.
Proof.
  split.
  - intros f f1 object o Hd Hgen [Hlo Hhi] Hbefore.
    destruct (DeleteObject_Ok _ _ _ Hd)
      as (entry & head & Hentry & Hhead & Hg & _ & _ & Hlen & Hother & Hne0 & _).
    assert (Hk : (1 <= N.to_nat (number object))%nat) by lia.
    destruct Hne0 as [_ Hslot]; [lia|].
    assert (Hnext : nextUnusedOf (xref f1) = N.to_nat (number object)).
    { apply nextUnusedOf_first; [exact Hk | |].
      - intros j Hj. destruct (Hbefore j Hj) as (e & He & Ht).
        exists e. split; [rewrite Hother by lia; exact He | exact Ht].
      - intros (e & He & Ht). rewrite Hslot in He. injection He as <-.
        unfold taken, deleted in Ht. simpl in Ht.
        rewrite andb_false_r in Ht. discriminate Ht. }
    destruct (ReserveObjectNumber_succeeds f1 o) as [[f2 on] Hr].
    exists f2. rewrite Hr. f_equal. f_equal.
    destruct (ReserveObjectNumber_Ok _ _ _ _ Hr)
      as (_ & _ & Hnum & [(Hout & _)|(e & h & _ & He & _ & Hgen' & _)]).
    + exfalso. rewrite Hnext in Hout. apply lookup_lt_Some in Hentry.
      unfold Size in Hout. lia.
    + rewrite Hnext in Hnum, He. rewrite Hslot in He. injection He as <-.
      rewrite uint32_small in Hnum by exact Hhi.
      destruct on as [n g]. simpl in *. subst n g.
      unfold bump. rewrite <- Hg.
      destruct (N.ltb_spec (objGeneration object) 65535); [reflexivity | lia].
  - unfold reuse_scenario. do 4 eexists.
    split; [reflexivity|]. split; [reflexivity|]. split; [reflexivity|].
    split; [reflexivity|]. split; reflexivity.
Qed.

Lemma reuse_after_release_witness :
  run NewFile [CallReserve Null; CallReserve Null] = Some twoReserved /\
  exists f1 f2,
    DeleteObject twoReserved (NewObjectNumber 2 0) = Ok f1 /\
    ReserveObjectNumber f1 Null = Ok (f2, NewObjectNumber 2 (0 + 1)).
Proof.
  split; [reflexivity|].
  destruct (DeleteObject twoReserved (NewObjectNumber 2 0)) as [f1|p] eqn:Hd;
    [|discriminate Hd].
  destruct (proj1 reuse_after_release twoReserved f1 (NewObjectNumber 2 0) Null Hd)
    as [f2 Hr].
  - reflexivity.
  - split; [discriminate | reflexivity].
  - intros j Hj. simpl in Hj. assert (j = 1%nat) as -> by lia.
    eexists. split; reflexivity.
  - exists f1, f2. split; [reflexivity | exact Hr].
Defined.

(** C8 as stated fails when a lower slot is free: with slots 1 and 2
    reserved and slot 1 deleted, deleting [(2,0)] and reserving again returns
    [(1,1)], not number 2. *)
Lemma reserve_returns_lower_free_slot :
  ~ (forall (f f1 f2 : file) (object on : ObjectNumber) (o : Object),
       reachable f ->
       DeleteObject f object = Ok f1 ->
       objGeneration object < 65535 ->
       ReserveObjectNumber f1 o = Ok (f2, on) ->
       number on = number object /\ objGeneration object < objGeneration on).
Proof.
  intros H.
  destruct (run NewFile twoReservedFirstDeleted) as [f|] eqn:Hrun; [|discriminate Hrun].
  assert (Hreach : reachable f) by (eapply run_reachable; [apply reach_NewFile | exact Hrun]).
  destruct (DeleteObject f (NewObjectNumber 2 0)) as [f1|p] eqn:Hd;
    [|vm_compute in Hrun; injection Hrun as <-; discriminate Hd].
  destruct (ReserveObjectNumber f1 Null) as [[f2 on]|p] eqn:Hr;
    [|destruct (ReserveObjectNumber_succeeds f1 Null) as [a Ha]; congruence].
  destruct (H f f1 f2 (NewObjectNumber 2 0) on Null Hreach Hd eq_refl Hr) as [Hnum _].
  vm_compute in Hrun. injection Hrun as <-.
  vm_compute in Hd. injection Hd as <-.
  vm_compute in Hr. injection Hr as _ <-. discriminate Hnum.
Qed.

(** ** What [ReserveObjectNumber] returns *)

(** [ReserveObjectNumber] returns the first slot from 1 on that is free or
    at generation 65535, with the generation it has, and marks it in use. *)
Lemma ReserveObjectNumber_first (f : file) (o : Object) (k : nat) (entry : xrefEntry) :
  (1 <= k)%nat ->
  (forall j, (1 <= j < k)%nat -> holds_at taken (xref f) j) ->
  xref f !! k = Some entry -> taken entry = false ->
  exists f',
    ReserveObjectNumber f o = Ok (f', NewObjectNumber (uint32 k) (generation entry)) /\
    inUse <$> xref f' !! k = Some true.
Proof.
  intros Hk Hbefore Hentry Hfree.
  assert (Hnext : nextUnusedOf (xref f) = k).
  { apply nextUnusedOf_first; [exact Hk | exact Hbefore |].
    intros (e & He & Ht). rewrite Hentry in He. injection He as <-. congruence. }
  destruct (ReserveObjectNumber_succeeds f o) as [[f' on] Hr].
  exists f'.
  destruct (ReserveObjectNumber_Ok _ _ _ _ Hr)
    as (_ & _ & Hnum & [(Hout & _)|(e & h & _ & He & _ & Hgen & Hx)]).
  - exfalso. rewrite Hnext in Hout. apply lookup_lt_Some in Hentry.
    unfold Size in Hout. lia.
  - rewrite Hnext in Hnum, He, Hx. rewrite Hentry in He. injection He as <-.
    split.
    + rewrite Hr. destruct on as [n g]. simpl in *. subst n g. reflexivity.
    + rewrite Hx, !lookup_assign. repeat case_decide; try lia.
      rewrite Hentry. reflexivity.
Qed.

Lemma unretired_assign (x : list xrefEntry) (i : nat) (upd : xrefEntry -> xrefEntry) :
  (forall e, generation (upd e) = generation e) ->
  unretired x -> unretired (assign i upd x).
Proof.
  intros Hupd Hx j e Hj. rewrite lookup_assign. case_decide.
  - destruct (x !! j) as [e0|] eqn:He0; simpl; [|discriminate].
    intros Heq. injection Heq as <-. rewrite Hupd. eapply Hx; eassumption.
  - apply Hx. exact Hj.
Qed.

(** One reservation on a table without retired slots: the index returned
    was not taken, is taken afterwards, and what was taken stays taken. *)
Lemma ReserveObjectNumber_fresh (f f' : file) (o : Object) (on : ObjectNumber) :
  ReserveObjectNumber f o = Ok (f', on) ->
  (1 <= Size (xref f))%nat -> unretired (xref f) ->
  number on = uint32 (nextUnusedOf (xref f)) /\
  (nextUnusedOf (xref f) <= Size (xref f))%nat /\
  ~ holds_at taken (xref f) (nextUnusedOf (xref f)) /\
  holds_at taken (xref f') (nextUnusedOf (xref f)) /\
  (forall j, holds_at taken (xref f) j -> holds_at taken (xref f') j) /\
  unretired (xref f') /\
  (Size (xref f) <= Size (xref f') <= S (Size (xref f)))%nat.
Proof.
  intros Hr Hsize Hun.
  pose proof (scanFrom_ge taken (xref f) 1) as Hge.
  pose proof (scanFrom_le_Size taken (xref f) 1 Hsize) as Hle.
  pose proof (scanFrom_stops taken (xref f) 1) as Hstop.
  fold (nextUnusedOf (xref f)) in Hge, Hle, Hstop.
  destruct (ReserveObjectNumber_Ok _ _ _ _ Hr)
    as (_ & _ & Hnum & [(Hout & _ & Hx)|(entry & head & Hin & Hentry & _ & _ & Hx)]).
  - assert (Hk : nextUnusedOf (xref f) = length (xref f)) by (unfold Size in *; lia).
    repeat split; try assumption.
    + rewrite Hx, Hk. exists (mkXrefEntry 0 0 true true).
      split; [apply list_lookup_middle; reflexivity | reflexivity].
    + intros j (e & He & Ht). exists e. rewrite Hx.
      split; [apply lookup_app_l_Some; exact He | exact Ht].
    + rewrite Hx. intros j e Hj He. apply lookup_app_Some in He.
      destruct He as [He|[_ He]]; [eapply Hun; eassumption|].
      destruct (j - length (xref f))%nat; simpl in He; [|discriminate He].
      injection He as <-. reflexivity.
    + rewrite Hx. unfold Size. rewrite length_app. simpl. lia.
    + rewrite Hx. unfold Size. rewrite length_app. simpl. lia.
  - repeat split; try assumption.
    + rewrite Hx. exists (setInUse true entry). rewrite !lookup_assign.
      repeat case_decide; try lia. rewrite Hentry. split; [reflexivity|].
      unfold taken. simpl. rewrite andb_true_r. apply N.ltb_lt.
      eapply Hun; [|exact Hentry]. lia.
    + intros j Hj. rewrite Hx.
      repeat apply holds_at_assign; try exact Hj; unfold taken; simpl; intros e He.
      * apply andb_true_iff in He. destruct He as [He _]. rewrite He. reflexivity.
      * exact He.
    + rewrite Hx. repeat apply unretired_assign; try exact Hun; intros e; reflexivity.
    + rewrite Hx. unfold Size. rewrite !length_assign. lia.
    + rewrite Hx. unfold Size. rewrite !length_assign. lia.
Qed.

Lemma reserveAll_indices (os : list Object) (f f' : file) (ons : list ObjectNumber) :
  reserveAll f os = Ok (f', ons) ->
  (1 <= Size (xref f))%nat -> unretired (xref f) ->
  exists ks : list nat,
    map number ons = map uint32 ks /\ NoDup ks /\
    Forall (fun k => ~ holds_at taken (xref f) k /\
                     (k < Size (xref f) + length os)%nat) ks.
Proof.
  revert f f' ons. induction os as [|o os IH]; intros f f' ons; simpl.
  - intros H _ _. injection H as <- <-. exists []. repeat constructor.
  - destruct (ReserveObjectNumber f o) as [[f1 on]|p] eqn:Hr; cbn [bind]; [|discriminate].
    destruct (reserveAll f1 os) as [[f2 ons']|p] eqn:Hrest; cbn [bind]; [|discriminate].
    intros H Hsize Hun. injection H as <- <-.
    destruct (ReserveObjectNumber_fresh _ _ _ _ Hr Hsize Hun)
      as (Hnum & Hle & Hnot & Hnow & Hmono & Hun1 & Hsz1 & Hsz2).
    destruct (IH f1 f2 ons' Hrest ltac:(lia) Hun1) as (ks & Hmap & Hnd & Hall).
    exists (nextUnusedOf (xref f) :: ks). split; [|split].
    + simpl. rewrite Hnum, Hmap. reflexivity.
    + constructor; [|exact Hnd].
      intros Hin. rewrite Forall_forall in Hall. destruct (Hall _ Hin) as [Hfree _].
      apply Hfree. exact Hnow.
    + constructor; [split; [exact Hnot | lia]|].
      eapply Forall_impl; [exact Hall|]. simpl.
      intros k [Hfree Hlt]. split; [|lia].
      intros Htaken. apply Hfree. apply Hmono. exact Htaken.
Qed.

(** X9.  Away from generation 65535 the numbers reserved in a row are distinct:
    on a table that has slot 0, no slot from 1 on at generation 65535, and
    room below [2^32], the object numbers returned by a sequence of
    [ReserveObjectNumber] calls are pairwise distinct. *)
Lemma reserveAll_distinct (os : list Object) (f f' : file) (ons : list ObjectNumber) :
  reserveAll f os = Ok (f', ons) ->
  (1 <= Size (xref f))%nat -> unretired (xref f) ->
  N.of_nat (Size (xref f) + length os) <= 2 ^ 32 ->
  NoDup (map number ons).
Proof.
  intros Hall Hsize Hun Hroom.
  destruct (reserveAll_indices os f f' ons Hall Hsize Hun) as (ks & Hmap & Hnd & Hks).
  rewrite Hmap. change (NoDup (uint32 <$> ks)).
  apply NoDup_fmap_2_strong; [|exact Hnd].
  rewrite Forall_forall in Hks.
  intros a b Ha Hb Heq.
  destruct (Hks a Ha) as [_ Hla]. destruct (Hks b Hb) as [_ Hlb].
  unfold uint32 in Heq. rewrite !N.mod_small in Heq by lia. lia.
Qed.

(** ** A slot at generation 65535 (C1, C2) *)

Lemma reserveThenDelete_reachable (s : option file) :
  (forall f, s = Some f -> reachable f) ->
  forall f, reserveThenDelete s = Some f -> reachable f.
Proof.
  intros Hs f. destruct s as [f0|]; simpl; [|discriminate].
  destruct (ReserveObjectNumber f0 Null) as [[f1 on]|p] eqn:Hr; [|discriminate].
  destruct (DeleteObject f1 on) as [f2|p] eqn:Hd; [|discriminate].
  intros H. injection H as <-.
  eapply reach_DeleteObject; [|exact Hd].
  eapply reach_Reserve; [|exact Hr]. apply Hs. reflexivity.
Qed.

Lemma worn_reachable (f : file) : worn = Some f -> reachable f.
Proof.
  revert f. unfold worn.
  apply (N.iter_invariant 65535 (option file) reserveThenDelete
           (fun s => forall f, s = Some f -> reachable f)).
  - intros s Hs. apply reserveThenDelete_reachable. exact Hs.
  - intros f H. injection H as <-. apply reach_NewFile.
Qed.

Lemma worn_eq : worn = Some wornFile.
Proof. vm_compute. reflexivity. Qed.

(** C1 at its failing input.  After slot 1 was reserved and deleted 65535
    times it is at generation 65535, and the next [ReserveObjectNumber]
    returns number 1 again, with generation 65535. *)
Theorem retired_number_reserved_again :
  reachable wornFile /\
  xref wornFile !! 1%nat = Some (mkXrefEntry 0 65535 false true) /\
  exists f', ReserveObjectNumber wornFile Null = Ok (f', NewObjectNumber 1 65535).
Proof.
  split; [apply worn_reachable, worn_eq|].
  split; [reflexivity|].
  eexists. reflexivity.
Qed.

(** C2 at its failing input.  On the same file two calls of
    [ReserveObjectNumber] in a row, with nothing deleted in between, return
    the same object number [(1, 65535)]: the search stops at slot 1 although
    the first call marked it in use. *)
Theorem two_reservations_same_number :
  reachable wornFile /\
  exists f1 f2,
    ReserveObjectNumber wornFile Null = Ok (f1, NewObjectNumber 1 65535) /\
    inUse <$> xref f1 !! 1%nat = Some true /\
    ReserveObjectNumber f1 Null = Ok (f2, NewObjectNumber 1 65535).
Proof.
  split; [apply worn_reachable, worn_eq|].
  do 2 eexists. split; [reflexivity|]. split; reflexivity.
Qed.

(** ** The second write of an object number *)

Lemma contents_Flush (f : file) :
  (String.length (contents (osfile f)) <= String.length (contents (osfile (Flush f))))%nat.
Proof.
  unfold Flush. destruct (isOpen (osfile f)); simpl; [|lia].
  rewrite length_append. lia.
Qed.

Lemma AddObjectAt_osfile (f f' : file) (object : ObjectNumber) (o : Object) :
  AddObjectAt f object o = Ok f' -> osfile f' = osfile (Flush f).
Proof.
  unfold AddObjectAt.
  destruct (At (xref f) (N.to_nat (number object))) as [entry|]; [|discriminate].
  cbn [bind]. destruct (negb _); [discriminate|]. destruct (negb _); [discriminate|].
  intros H. injection H as <-. reflexivity.
Qed.

(** The file of a reachable state holds at least the nine bytes of the
    header, so no object is written at offset 0 while the handle is open. *)
Lemma reachable_header (f : file) :
  reachable f -> (9 <= String.length (contents (osfile f)))%nat.
Proof.
  induction 1 as [|f o f' on Hf IH Hr|f on o f' Hf IH Ha|f on f' Hf IH Hd|f f' Hf IH Hc].
  - simpl. lia.
  - destruct (ReserveObjectNumber_Ok _ _ _ _ Hr) as (Ho & _). rewrite Ho. exact IH.
  - rewrite (AddObjectAt_osfile _ _ _ _ Ha). pose proof (contents_Flush f). lia.
  - destruct (DeleteObject_Ok _ _ _ Hd) as (_ & _ & _ & _ & _ & Ho & _).
    rewrite Ho. exact IH.
  - rewrite Close_returns in Hc. injection Hc as <-.
    pose proof (contents_Flush (WriteString (xrefText (xref f)) f)) as Hle.
    simpl in *. lia.
Qed.

(** X10.  On a reachable state whose handle is open, an [AddObjectAt] that
    returned is refused when repeated for the same object number, with "An
    object has already been written with this number". *)
Lemma second_write_refused (f f' : file) (object : ObjectNumber) (o o' : Object) :
  reachable f -> isOpen (osfile f) = true ->
  AddObjectAt f object o = Ok f' ->
  AddObjectAt f' object o' = Panic AlreadyWritten.
Proof.
  intros Hf Hopen Ha.
  destruct (AddObjectAt_Ok _ _ _ _ Ha) as (entry & Hentry & _ & _ & _ & Hx).
  pose proof (reachable_header f Hf) as Hhead.
  pose proof (contents_Flush f) as Hle.
  assert (Hpos : Seek (Flush f) <> 0).
  { unfold Seek. unfold Flush at 1. rewrite Hopen. simpl.
    unfold Flush in Hle. rewrite Hopen in Hle. simpl in Hle.
    unfold Flush. rewrite Hopen. simpl. lia. }
  unfold AddObjectAt.
  assert (He : xref f' !! N.to_nat (number object)
               = Some (setByteOffset (Seek (Flush f)) entry)).
  { rewrite Hx, lookup_assign. case_decide; [|congruence]. rewrite Hentry. reflexivity. }
  rewrite (At_Some _ _ _ He). cbn [bind]. simpl.
  destruct (N.eqb_spec (Seek (Flush f)) 0) as [Hz|_]; [contradiction | reflexivity].
Qed.

(** ** A reused slot that cannot be written (C5) *)

(** C5 at its failing input.  After [twoDeleted] slot 1 is free and its
    [byteOffset] is the link to slot 2.  [ReserveObjectNumber] returns
    [(1,1)] and leaves the link in place, so the first [AddObjectAt] for
    [(1,1)] panics with "An object has already been written with this
    number" although nothing was written for it; [AddObject] panics in the
    same way. *)
Theorem first_write_refused :
  run NewFile twoDeleted = Some twoDeletedFile /\
  reachable twoDeletedFile /\
  exists f1,
    ReserveObjectNumber twoDeletedFile Null = Ok (f1, NewObjectNumber 1 1) /\
    xref f1 !! 1%nat = Some (mkXrefEntry 2 1 true true) /\
    AddObjectAt f1 (NewObjectNumber 1 1) Null = Panic AlreadyWritten /\
    AddObject twoDeletedFile Null = Panic AlreadyWritten.
Proof.
  assert (Hrun : run NewFile twoDeleted = Some twoDeletedFile) by reflexivity.
  split; [exact Hrun|].
  split; [eapply run_reachable; [apply reach_NewFile | exact Hrun]|].
  eexists. split; [reflexivity|]. split; [reflexivity|]. split; reflexivity.
Qed.

(** ** The head of the free list (C7) *)

(** C7 at its failing input.  After [twoReused] both slots are in use, so
    no slot from 1 on is free, and yet the [byteOffset] of slot 0 is 1: it
    names a slot in use.  (The search of [ReserveObjectNumber] takes the
    lowest free slot, which need not be the one slot 0 links to, and copies
    that slot's link into slot 0.) *)
Theorem head_names_slot_in_use :
  run NewFile twoReused = Some twoReusedFile /\
  reachable twoReusedFile /\
  byteOffset <$> xref twoReusedFile !! 0%nat = Some 1 /\
  inUse <$> xref twoReusedFile !! 1%nat = Some true /\
  (forall j, (1 <= j)%nat -> ~ free_at (xref twoReusedFile) j).
Proof.
  assert (Hrun : run NewFile twoReused = Some twoReusedFile) by reflexivity.
  split; [exact Hrun|].
  split; [eapply run_reachable; [apply reach_NewFile | exact Hrun]|].
  split; [reflexivity|]. split; [reflexivity|].
  intros j Hj (e & He & Hfree).
  destruct j as [|[|[|j]]]; simpl in He; try lia; try discriminate He;
    injection He as <-; discriminate Hfree.
Qed.

(** What does hold of slot 0 in every reachable state: it exists, it is not
    in use, and its generation is 65535. *)
Lemma slot0_invariant (f : file) :
  reachable f ->
  exists head, xref f !! 0%nat = Some head /\ inUse head = false /\ generation head = 65535.
Proof. intros Hf. exact (inv_head f (reachable_invariant f Hf)). Qed.

(** * Further properties of [file] *)

(** ** Slots are kept and generations only grow *)

Lemma lookup_assign_generation (x : list xrefEntry) (i j : nat)
    (upd : xrefEntry -> xrefEntry) (e : xrefEntry) :
  (forall a, generation (upd a) = generation a) ->
  x !! j = Some e ->
  exists e', assign i upd x !! j = Some e' /\ generation e' = generation e.
Proof.
  intros Hupd He. rewrite lookup_assign, He. case_decide.
  - exists (upd e). split; [reflexivity | apply Hupd].
  - exists e. split; reflexivity.
Qed.

Lemma Reserve_keeps_generation (f f' : file) (o : Object) (on : ObjectNumber)
    (j : nat) (e : xrefEntry) :
  ReserveObjectNumber f o = Ok (f', on) -> xref f !! j = Some e ->
  exists e', xref f' !! j = Some e' /\ generation e' = generation e.
Proof.
  intros Hr He.
  destruct (ReserveObjectNumber_Ok _ _ _ _ Hr)
    as (_ & _ & _ & [(_ & _ & Hx)|(entry & head & _ & _ & _ & _ & Hx)]); rewrite Hx.
  - exists e. split; [apply lookup_app_l_Some; exact He | reflexivity].
  - destruct (lookup_assign_generation (xref f) 0 j (setByteOffset (byteOffset entry)) e)
      as (e1 & He1 & Hg1); [reflexivity | exact He |].
    destruct (lookup_assign_generation
                (assign 0 (setByteOffset (byteOffset entry)) (xref f))
                (nextUnusedOf (xref f)) j (setInUse true) e1)
      as (e2 & He2 & Hg2); [reflexivity | exact He1 |].
    exists e2. split; [exact He2 | congruence].
Qed.

Lemma AddObjectAt_keeps_generation (f f' : file) (on : ObjectNumber) (o : Object)
    (j : nat) (e : xrefEntry) :
  AddObjectAt f on o = Ok f' -> xref f !! j = Some e ->
  exists e', xref f' !! j = Some e' /\ generation e' = generation e.
Proof.
  intros Ha He. destruct (AddObjectAt_Ok _ _ _ _ Ha) as (entry & _ & _ & _ & _ & Hx).
  rewrite Hx. apply lookup_assign_generation; [reflexivity | exact He].
Qed.

Lemma bump_bounds (g : N) : g <= bump g <= g + 1 /\ (g = 65535 -> bump g = 65535).
Proof.
  unfold bump. destruct (N.ltb_spec g 65535); split; try lia.
Qed.

(** X1.  No call removes a slot or lowers a generation: over any call that
    returns, a slot that exists still exists afterwards, at the same
    generation or one higher, and a slot at generation 65535 stays at
    65535. *)
Theorem generation_never_decreases
    (f f' : file) (c : call) (j : nat) (e : xrefEntry) :
  step f c = Some f' ->
  xref f !! j = Some e ->
  exists e',
    xref f' !! j = Some e' /\
    generation e <= generation e' <= generation e + 1 /\
    (generation e = 65535 -> generation e' = 65535).
Proof.
  intros Hstep He.
  assert (Hsame : forall e', generation e' = generation e ->
            generation e <= generation e' <= generation e + 1 /\
            (generation e = 65535 -> generation e' = 65535)).
  { intros e' ->. split; [lia | tauto]. }
  destruct c as [o|on o|o|on|]; simpl in Hstep.
  - destruct (ReserveObjectNumber f o) as [[f1 on1]|p] eqn:Hr; inversion Hstep; subst.
    destruct (Reserve_keeps_generation _ _ _ _ _ _ Hr He) as (e' & He' & Hg).
    exists e'. split; [exact He' | apply Hsame; exact Hg].
  - destruct (AddObjectAt f on o) as [f1|p] eqn:Ha; inversion Hstep; subst.
    destruct (AddObjectAt_keeps_generation _ _ _ _ _ _ Ha He) as (e' & He' & Hg).
    exists e'. split; [exact He' | apply Hsame; exact Hg].
  - unfold AddObject in Hstep.
    destruct (ReserveObjectNumber f o) as [[f1 on1]|p] eqn:Hr; simpl in Hstep; [|discriminate].
    destruct (AddObjectAt f1 on1 o) as [f2|p] eqn:Ha; simpl in Hstep; inversion Hstep; subst.
    destruct (Reserve_keeps_generation _ _ _ _ _ _ Hr He) as (e1 & He1 & Hg1).
    destruct (AddObjectAt_keeps_generation _ _ _ _ _ _ Ha He1) as (e' & He' & Hg).
    exists e'. split; [exact He' | apply Hsame; congruence].
  - destruct (DeleteObject f on) as [f1|p] eqn:Hd; inversion Hstep; subst.
    destruct (DeleteObject_Ok _ _ _ Hd)
      as (entry & head & Hentry & Hhead & _ & _ & _ & _ & Hother & Hne0 & Heq0).
    destruct (decide (N.to_nat (number on) = 0%nat)) as [Hz|Hnz].
    + destruct (decide (j = 0%nat)) as [->|Hj].
      * rewrite Hz in Hentry. rewrite Hentry in He. injection He as <-.
        exists (deleted (number on) entry). split; [apply Heq0; exact Hz|].
        simpl. apply bump_bounds.
      * exists e. split; [rewrite Hother by lia; exact He | apply Hsame; reflexivity].
    + destruct (Hne0 Hnz) as [H0 Hn].
      destruct (decide (j = 0%nat)) as [->|Hj0].
      * rewrite Hhead in He. injection He as <-.
        exists (setByteOffset (number on) head). split; [exact H0 | apply Hsame; reflexivity].
      * destruct (decide (j = N.to_nat (number on))) as [->|Hjn].
        -- rewrite Hentry in He. injection He as <-.
           exists (deleted (byteOffset head) entry). split; [exact Hn|].
           simpl. apply bump_bounds.
        -- exists e. split; [rewrite Hother by assumption; exact He | apply Hsame; reflexivity].
  - destruct (Close f) as [[f1|p]|] eqn:Hc; inversion Hstep; subst.
    destruct (Close_Ok _ _ Hc) as [Hx _]. rewrite Hx.
    exists e. split; [exact He | apply Hsame; reflexivity].
Qed.

Lemma generation_never_decreases_witness :
  exists e',
    xref twoDeletedFile !! 1%nat = Some e' /\
    0 <= generation e' <= 0 + 1 /\ (0 = 65535 -> generation e' = 65535).
Proof.
  apply (generation_never_decreases
           (setXref [mkXrefEntry 2 65535 false true; mkXrefEntry 0 0 true true;
                     mkXrefEntry 0 1 false true] NewFile)
           twoDeletedFile (CallDeleteObject (NewObjectNumber 1 0)) 1
           (mkXrefEntry 0 0 true true)).
  - reflexivity.
  - reflexivity.
Defined.

(** X2.  In every reachable state slot 0 exists, is free and is at
    generation 65535, and no slot has a generation above 65535. *)
Theorem reachable_table_wellformed (f : file) :
  reachable f ->
  (exists head, xref f !! 0%nat = Some head /\
                inUse head = false /\ generation head = 65535) /\
  (forall j e, xref f !! j = Some e -> generation e <= 65535).
Proof.
  intros Hf. destruct (reachable_invariant f Hf) as [Hhead _ Hgen].
  split; [exact Hhead|].
  intros j e He. exact (Forall_lookup_1 _ _ _ _ Hgen He).
Qed.

Lemma reachable_table_wellformed_witness :
  (exists head, xref twoReusedFile !! 0%nat = Some head /\
                inUse head = false /\ generation head = 65535) /\
  (forall j e, xref twoReusedFile !! j = Some e -> generation e <= 65535).
Proof.
  apply reachable_table_wellformed.
  apply (run_reachable twoReused NewFile); [apply reach_NewFile | reflexivity].
Defined.

(** ** What [ReserveObjectNumber] does to the table *)

(** The reservation on a table whose slots from 1 on are all taken. *)
Lemma Reserve_all_taken (f : file) (o : Object) :
  (1 <= Size (xref f))%nat ->
  (forall j, (1 <= j < Size (xref f))%nat -> holds_at taken (xref f) j) ->
  ReserveObjectNumber f o =
    Ok (setXref (xref f ++ [mkXrefEntry 0 0 true true]) f,
        NewObjectNumber (uint32 (Size (xref f))) 0).
Proof.
  intros Hsize Hall.
  assert (Hnext : nextUnusedOf (xref f) = Size (xref f)).
  { apply nextUnusedOf_first; [exact Hsize | exact Hall |].
    intros (e & He & _). apply lookup_lt_Some in He. unfold Size in He. lia. }
  unfold ReserveObjectNumber. fold taken. fold (nextUnusedOf (xref f)).
  rewrite Hnext, Nat.leb_refl. reflexivity.
Qed.

(** X3.  When the table has slot 0 and every slot from 1 on is in use at a
    generation below 65535, [ReserveObjectNumber] appends the entry [{0, 0, true, true}] to the table,
    changes nothing else, and returns the index of the new entry (modulo
    [2^32]) with generation 0. *)
Theorem ReserveObjectNumber_appends (f : file) (o : Object) :
  (1 <= Size (xref f))%nat ->
  (forall j, (1 <= j < Size (xref f))%nat -> holds_at taken (xref f) j) ->
  ReserveObjectNumber f o =
    Ok (setXref (xref f ++ [mkXrefEntry 0 0 true true]) f,
        NewObjectNumber (uint32 (Size (xref f))) 0).
Proof. apply Reserve_all_taken. Qed.

Lemma ReserveObjectNumber_appends_witness :
  ReserveObjectNumber twoReusedFile Null =
    Ok (setXref (xref twoReusedFile ++ [mkXrefEntry 0 0 true true]) twoReusedFile,
        NewObjectNumber (uint32 3) 0).
Proof.
  apply (ReserveObjectNumber_appends twoReusedFile Null).
  - simpl. lia.
  - intros j Hj. simpl in Hj.
    destruct j as [|[|[|j]]]; try lia; eexists; split; reflexivity.
Defined.

(** X4.  When slot [k], from 1 on, is the first that is free or at
    generation 65535, [ReserveObjectNumber] returns [k] (modulo [2^32]) with
    the generation the slot has, marks the slot in use, copies the slot's
    [byteOffset] into slot 0, and changes nothing else: the size of the table
    and every other slot stay as they are. *)
Theorem ReserveObjectNumber_reuses
    (f : file) (o : Object) (k : nat) (entry head : xrefEntry) :
  (1 <= k)%nat ->
  (forall j, (1 <= j < k)%nat -> holds_at taken (xref f) j) ->
  xref f !! k = Some entry -> taken entry = false ->
  xref f !! 0%nat = Some head ->
  ReserveObjectNumber f o =
    Ok (setXref (<[k := setInUse true entry]>
                   (<[0%nat := setByteOffset (byteOffset entry) head]> (xref f))) f,
        NewObjectNumber (uint32 k) (generation entry)).
Proof.
  intros Hk Hbefore Hentry Hfree Hhead.
  assert (Hnext : nextUnusedOf (xref f) = k).
  { apply nextUnusedOf_first; [exact Hk | exact Hbefore |].
    intros (e & He & Ht). rewrite Hentry in He. injection He as <-. congruence. }
  unfold ReserveObjectNumber. fold taken. fold (nextUnusedOf (xref f)).
  rewrite Hnext.
  pose proof (lookup_lt_Some _ _ _ Hentry) as Hlt.
  destruct (Nat.leb_spec (Size (xref f)) k) as [Hle|_]; [unfold Size in Hle; lia|].
  rewrite (At_Some _ _ _ Hentry), (At_Some _ _ _ Hhead). cbn [bind].
  assert (Hentry' : assign 0 (setByteOffset (byteOffset entry)) (xref f) !! k = Some entry).
  { rewrite lookup_assign. case_decide; [lia | exact Hentry]. }
  rewrite (At_Some _ _ _ Hentry'). cbn [bind].
  do 3 f_equal. apply list_eq. intros j.
  rewrite !lookup_assign.
  destruct (decide (k = j)) as [<-|Hkj].
  - rewrite list_lookup_insert_eq by (rewrite length_insert; exact Hlt).
    destruct (decide (0%nat = k)); [lia|]. rewrite Hentry. reflexivity.
  - rewrite list_lookup_insert_ne by exact Hkj.
    destruct (decide (0%nat = j)) as [<-|H0j].
    + rewrite list_lookup_insert_eq by lia. rewrite Hhead. reflexivity.
    + rewrite list_lookup_insert_ne by exact H0j. reflexivity.
Qed.

Lemma ReserveObjectNumber_reuses_witness :
  ReserveObjectNumber twoDeletedFile Null =
    Ok (setXref [mkXrefEntry 2 65535 false true; mkXrefEntry 2 1 true true;
                 mkXrefEntry 0 1 false true] twoDeletedFile,
        NewObjectNumber (uint32 1) 1).
Proof.
  apply (ReserveObjectNumber_reuses twoDeletedFile Null 1
           (mkXrefEntry 2 1 false true) (mkXrefEntry 1 65535 false true)).
  - lia.
  - intros j Hj. lia.
  - reflexivity.
  - reflexivity.
  - reflexivity.
Defined.

(** ** What [DeleteObject] does to the table *)

(** X5.  A [DeleteObject] of a number other than 0 that returns pushes the
    slot on the free list: the slot takes over the [byteOffset] of slot 0 as
    its link, is marked free and dirty, and its generation goes up by one
    unless it is 65535; slot 0 gets the number of the slot as its
    [byteOffset]; every other slot, the size of the table, the file and the
    writer stay as they are. *)
Theorem DeleteObject_pushes_slot (f f' : file) (object : ObjectNumber) :
  DeleteObject f object = Ok f' ->
  N.to_nat (number object) <> 0%nat ->
  exists entry head,
    xref f !! N.to_nat (number object) = Some entry /\
    xref f !! 0%nat = Some head /\
    f' = setXref
           (<[0%nat := setByteOffset (number object) head]>
              (<[N.to_nat (number object) :=
                   mkXrefEntry (byteOffset head) (bump (generation entry)) false true]>
                 (xref f))) f.
Proof.
  intros Hd Hnz.
  destruct (DeleteObject_Ok _ _ _ Hd)
    as (entry & head & Hentry & Hhead & _ & Hos & Hw & Hlen & Hother & Hne0 & _).
  destruct (Hne0 Hnz) as [H0 Hn].
  exists entry, head. split; [exact Hentry|]. split; [exact Hhead|].
  destruct f' as [x' os' w']. simpl in *. unfold setXref. subst os' w'.
  f_equal. apply list_eq. intros j.
  pose proof (lookup_lt_Some _ _ _ Hentry) as Hlt.
  destruct (decide (j = 0%nat)) as [->|Hj0].
  - rewrite list_lookup_insert_eq by (rewrite length_insert; lia). exact H0.
  - rewrite list_lookup_insert_ne by congruence.
    destruct (decide (j = N.to_nat (number object))) as [->|Hjn].
    + rewrite list_lookup_insert_eq by exact Hlt. exact Hn.
    + rewrite list_lookup_insert_ne by congruence. apply Hother; assumption.
Qed.

Lemma DeleteObject_pushes_slot_witness :
  exists entry head,
    xref twoReserved !! 2%nat = Some entry /\
    xref twoReserved !! 0%nat = Some head /\
    setXref [mkXrefEntry 2 65535 false true; mkXrefEntry 0 0 true true;
             mkXrefEntry 0 1 false true] NewFile =
    setXref
      (<[0%nat := setByteOffset 2 head]>
         (<[2%nat := mkXrefEntry (byteOffset head) (bump (generation entry)) false true]>
            (xref twoReserved))) twoReserved.
Proof.
  apply (DeleteObject_pushes_slot twoReserved _ (NewObjectNumber 2 0)).
  - reflexivity.
  - discriminate.
Defined.

(** ** The write path *)

(** What an [AddObjectAt] that returned on an open file has done, with
    the file and the writer as the model splits the bytes between them. *)
Lemma AddObjectAt_open (f f' : file) (object : ObjectNumber) (o : Object) :
  isOpen (osfile f) = true ->
  AddObjectAt f object o = Ok f' ->
  exists entry,
    xref f !! N.to_nat (number object) = Some entry /\
    byteOffset entry = 0 /\
    generation entry = objGeneration object /\
    f' = mkFile
           (<[N.to_nat (number object) :=
                setByteOffset (N.of_nat (String.length (written f))) entry]> (xref f))
           (mkOsFile (written f) true)
           (recordText object o) /\
    written f' = written f ++ recordText object o.
Proof.
  intros Hopen Ha.
  destruct (AddObjectAt_Ok _ _ _ _ Ha) as (entry & Hentry & Hzero & Hgen & _ & _).
  exists entry. split; [exact Hentry|]. split; [exact Hzero|]. split; [exact Hgen|].
  unfold AddObjectAt in Ha. unfold recordText.
  set (h := decimal (number object) ++ " " ++
            decimal (objGeneration object) ++ " obj" ++ nl) in *.
  set (t := nl ++ "endobj" ++ nl) in *.
  rewrite (At_Some _ _ _ Hentry) in Ha. cbn [bind] in Ha.
  rewrite Hzero, Hgen, !N.eqb_refl in Ha. cbn [negb] in Ha.
  assert (Hflush : Flush f = mkFile (xref f) (mkOsFile (written f) true) "").
  { unfold Flush, written. rewrite Hopen. reflexivity. }
  rewrite Hflush in Ha. unfold Seek in Ha. cbn [osfile isOpen contents xref] in Ha.
  rewrite !WriteString_WriteString in Ha.
  unfold WriteString, setXref in Ha. cbn [osfile writer xref] in Ha.
  injection Ha as <-.
  assert (Hx : assign (N.to_nat (number object))
                 (setByteOffset (N.of_nat (String.length (written f)))) (xref f)
               = <[N.to_nat (number object) :=
                     setByteOffset (N.of_nat (String.length (written f))) entry]>
                   (xref f)).
  { apply list_eq. intros j. rewrite lookup_assign.
    pose proof (lookup_lt_Some _ _ _ Hentry) as Hlt.
    destruct (decide (N.to_nat (number object) = j)) as [<-|Hne].
    - rewrite list_lookup_insert_eq by exact Hlt. rewrite Hentry. reflexivity.
    - rewrite list_lookup_insert_ne by exact Hne. reflexivity. }
  rewrite Hx. split; reflexivity.
Qed.

(** X6.  An [AddObjectAt] that returns on an open file records as
    [byteOffset] of the slot the number of bytes written so far, those in the
    file and those still in the writer, which the [Flush] has put in the file
    before the offset is read; it then writes the framed record of the object,
    which follows those bytes, so the offset in the table is the offset in the
    file at which the record begins.  No other slot and no other field of the
    slot changes, and the file stays open. *)
Theorem AddObjectAt_offset (f f' : file) (object : ObjectNumber) (o : Object) :
  isOpen (osfile f) = true ->
  AddObjectAt f object o = Ok f' ->
  exists entry,
    xref f !! N.to_nat (number object) = Some entry /\
    byteOffset entry = 0 /\
    generation entry = objGeneration object /\
    xref f' = <[N.to_nat (number object) :=
                  setByteOffset (N.of_nat (String.length (written f))) entry]> (xref f) /\
    written f' = written f ++ recordText object o /\
    isOpen (osfile f') = true.
Proof.
  intros Hopen Ha.
  destruct (AddObjectAt_open f f' object o Hopen Ha)
    as (entry & Hentry & Hzero & Hgen & Hf' & Hw).
  exists entry. split; [exact Hentry|]. split; [exact Hzero|]. split; [exact Hgen|].
  split; [rewrite Hf'; reflexivity|]. split; [exact Hw|]. rewrite Hf'. reflexivity.
Qed.

Lemma AddObjectAt_offset_witness :
  exists f',
    AddObjectAt twoReserved (NewObjectNumber 2 0) Null = Ok f' /\
    xref f' = [mkXrefEntry 0 65535 false true; mkXrefEntry 0 0 true true;
               mkXrefEntry 9 0 true true] /\
    written f' = "%PDF-1.4" ++ nl ++ "2 0 obj" ++ nl ++ "null" ++ nl ++ "endobj" ++ nl.
Proof.
  destruct (AddObjectAt twoReserved (NewObjectNumber 2 0) Null) as [f'|p] eqn:Ha;
    [|discriminate Ha].
  destruct (AddObjectAt_offset twoReserved f' (NewObjectNumber 2 0) Null eq_refl Ha)
    as (entry & Hentry & _ & _ & Hx & Hw & _).
  exists f'. split; [reflexivity|].
  vm_compute in Hentry. injection Hentry as <-.
  split; [rewrite Hx | rewrite Hw]; reflexivity.
Defined.

Lemma AddObjectAt_succeeds (f : file) (object : ObjectNumber) (o : Object)
    (entry : xrefEntry) :
  xref f !! N.to_nat (number object) = Some entry ->
  byteOffset entry = 0 -> generation entry = objGeneration object ->
  succeeds (AddObjectAt f object o).
Proof.
  intros Hentry Hzero Hgen. unfold AddObjectAt, succeeds.
  rewrite (At_Some _ _ _ Hentry). cbn [bind].
  rewrite Hzero, Hgen, !N.eqb_refl. cbn [negb]. eexists. reflexivity.
Qed.

(** One [AddObject] on a file whose slots from 1 on are all taken. *)
Lemma AddObject_appends (f : file) (o : Object) :
  isOpen (osfile f) = true ->
  (1 <= Size (xref f))%nat ->
  (forall j, (1 <= j < Size (xref f))%nat -> holds_at taken (xref f) j) ->
  N.of_nat (Size (xref f)) < 2 ^ 32 ->
  AddObject f o =
    Ok (mkFile (xref f ++ [mkXrefEntry (N.of_nat (String.length (written f))) 0 true true])
               (mkOsFile (written f) true)
               (recordText (NewObjectNumber (N.of_nat (Size (xref f))) 0) o),
        NewObjectNumber (N.of_nat (Size (xref f))) 0).
Proof.
  intros Hopen Hsize Hall Hroom. unfold AddObject.
  rewrite (Reserve_all_taken f o Hsize Hall). cbn [bind].
  unfold uint32. rewrite N.mod_small by exact Hroom.
  set (on := NewObjectNumber (N.of_nat (Size (xref f))) 0).
  set (f1 := setXref (xref f ++ [mkXrefEntry 0 0 true true]) f).
  assert (Hnew : xref f1 !! N.to_nat (number on) = Some (mkXrefEntry 0 0 true true)).
  { unfold f1, on. cbn [xref setXref number]. rewrite Nat2N.id.
    apply list_lookup_middle. reflexivity. }
  destruct (AddObjectAt_succeeds f1 on o _ Hnew eq_refl eq_refl) as [f2 Ha].
  rewrite Ha. cbn [bind].
  destruct (AddObjectAt_open f1 f2 on o Hopen Ha) as (entry & Hentry & _ & _ & Hf2 & _).
  rewrite Hnew in Hentry. injection Hentry as <-.
  rewrite Hf2. do 2 f_equal.
  unfold f1, on, written. cbn [xref setXref number osfile writer contents].
  rewrite Nat2N.id. f_equal. unfold Size.
  rewrite insert_app_r_alt by lia. rewrite Nat.sub_diag. reflexivity.
Qed.

Lemma taken_after_append (x : list xrefEntry) (pos : N) :
  (forall j, (1 <= j < Size x)%nat -> holds_at taken x j) ->
  forall j, (1 <= j < Size (x ++ [mkXrefEntry pos 0 true true]))%nat ->
            holds_at taken (x ++ [mkXrefEntry pos 0 true true]) j.
Proof.
  intros Hall j Hj. unfold Size in *. rewrite length_app in Hj. simpl in Hj.
  destruct (decide (j < length x)%nat) as [Hlt|Hge].
  - destruct (Hall j) as (e & He & Ht); [lia|].
    exists e. split; [apply lookup_app_l_Some; exact He | exact Ht].
  - assert (j = length x) as -> by lia.
    exists (mkXrefEntry pos 0 true true).
    split; [apply list_lookup_middle; reflexivity | reflexivity].
Qed.

(** A sequence of [AddObject] calls on a file whose slots from 1 on are
    all taken. *)
Lemma addAll_from (os : list Object) (f : file) :
  isOpen (osfile f) = true ->
  (1 <= Size (xref f))%nat ->
  (forall j, (1 <= j < Size (xref f))%nat -> holds_at taken (xref f) j) ->
  N.of_nat (Size (xref f) + length os) <= 2 ^ 32 ->
  exists f',
    addAll f os =
      Ok (f', fst (fst (objectsLayout (String.length (written f)) (Size (xref f)) os))) /\
    xref f' =
      (xref f ++ snd (fst (objectsLayout (String.length (written f)) (Size (xref f)) os)))%list /\
    written f' =
      written f ++ snd (objectsLayout (String.length (written f)) (Size (xref f)) os) /\
    isOpen (osfile f') = true.
Proof.
  revert f. induction os as [|o os IH]; intros f Hopen Hsize Hall Hroom.
  - exists f. cbn. rewrite app_nil_r, append_nil_r. repeat split. exact Hopen.
  - cbn [length] in Hroom.
    cbn [addAll objectsLayout].
    rewrite (AddObject_appends f o Hopen Hsize Hall) by lia. cbn [bind].
    set (on := NewObjectNumber (N.of_nat (Size (xref f))) 0).
    set (f1 := mkFile _ _ _).
    assert (Hw1 : written f1 = written f ++ recordText on o) by reflexivity.
    assert (Hs1 : Size (xref f1) = S (Size (xref f))).
    { unfold f1, Size. cbn [xref]. rewrite length_app. simpl. lia. }
    destruct (IH f1) as (f' & Hadd & Hx & Hw & Ho).
    + reflexivity.
    + lia.
    + unfold f1. cbn [xref]. apply taken_after_append. exact Hall.
    + rewrite Hs1. lia.
    + rewrite Hw1, length_append, Hs1 in Hadd, Hx, Hw.
      destruct (objectsLayout (String.length (written f) + String.length (recordText on o))
                  (S (Size (xref f))) os) as [[ons es] text].
      cbn [fst snd] in *.
      exists f'. rewrite Hadd. cbn [bind].
      split; [reflexivity|]. split; [|split; [|exact Ho]].
      * rewrite Hx. unfold f1. cbn [xref]. rewrite <- app_assoc. reflexivity.
      * rewrite Hw. rewrite append_assoc. reflexivity.
Qed.

(** X7.  On an open file whose slots from 1 on are all in use below
    generation 65535 (nothing deleted, nothing retired), a sequence of
    [AddObject] calls never panics: the objects get the numbers [Size],
    [Size + 1], ... at generation 0, the table grows by one entry in use per
    object, the records are written one after the other, and the
    [byteOffset] of each entry is the offset in the file at which the record
    of its object begins. *)
Theorem addAll_layout (os : list Object) (f : file) :
  isOpen (osfile f) = true ->
  (1 <= Size (xref f))%nat ->
  (forall j, (1 <= j < Size (xref f))%nat -> holds_at taken (xref f) j) ->
  N.of_nat (Size (xref f) + length os) <= 2 ^ 32 ->
  exists f',
    addAll f os =
      Ok (f', fst (fst (objectsLayout (String.length (written f)) (Size (xref f)) os))) /\
    xref f' =
      (xref f ++ snd (fst (objectsLayout (String.length (written f)) (Size (xref f)) os)))%list /\
    written f' =
      written f ++ snd (objectsLayout (String.length (written f)) (Size (xref f)) os) /\
    isOpen (osfile f') = true.
Proof. apply addAll_from. Qed.

Lemma addAll_layout_witness :
  exists f',
    addAll NewFile [Null; Null] = Ok (f', [NewObjectNumber 1 0; NewObjectNumber 2 0]) /\
    xref f' = [mkXrefEntry 0 65535 false true; mkXrefEntry 9 0 true true;
               mkXrefEntry 29 0 true true] /\
    isOpen (osfile f') = true.
Proof.
  destruct (addAll_layout [Null; Null] NewFile) as (f' & Hadd & Hx & _ & Ho).
  - reflexivity.
  - simpl. lia.
  - intros j Hj. simpl in Hj. lia.
  - simpl. lia.
  - exists f'. split; [exact Hadd|]. split; [exact Hx | exact Ho].
Defined.

Lemma objectsLayout_dirty (os : list Object) (pos num : nat) :
  Forall (fun e => dirty e = true) (snd (fst (objectsLayout pos num os))).
Proof.
  revert pos num. induction os as [|o os IH]; intros pos num; cbn [objectsLayout].
  - constructor.
  - specialize (IH (pos + String.length (recordText (NewObjectNumber (N.of_nat num) 0) o))%nat
                   (S num)).
    destruct (objectsLayout _ _ os) as [[ons es] text]. cbn [fst snd] in *.
    constructor; [reflexivity | exact IH].
Qed.

(** X8.  Writing objects to a new file with [AddObject] and closing it
    never panics, for fewer than [2^32] objects, and leaves a closed file
    that holds, in this order: the header line, the records of the objects
    under the numbers 1, 2, ... at generation 0, and the index, which is the
    keyword line and one segment with slot 0 and one entry per object that
    gives the offset of the object's record.  Nothing is left in the
    writer. *)
Theorem new_file_layout (os : list Object) :
  N.of_nat (S (length os)) <= 2 ^ 32 ->
  exists f1 f2,
    addAll NewFile os = Ok (f1, fst (fst (objectsLayout 9 1 os))) /\
    Close f1 = Some (Ok f2) /\
    contents (osfile f2) =
      ("%PDF-1.4" ++ nl) ++ snd (objectsLayout 9 1 os) ++
      wholeTableText (mkXrefEntry 0 65535 false true :: snd (fst (objectsLayout 9 1 os))) /\
    writer f2 = "" /\ isOpen (osfile f2) = false.
Proof.
  intros Hroom.
  destruct (addAll_from os NewFile) as (f1 & Hadd & Hx & Hw & Ho).
  - reflexivity.
  - simpl. lia.
  - intros j Hj. simpl in Hj. lia.
  - exact Hroom.
  - change (String.length (written NewFile)) with 9%nat in *.
    change (Size (xref NewFile)) with 1%nat in *.
    change (xref NewFile) with [mkXrefEntry 0 65535 false true] in Hx.
    change (written NewFile) with ("%PDF-1.4" ++ nl) in Hw.
    exists f1. eexists. split; [exact Hadd|]. split; [apply Close_returns|].
    assert (Hdirty : Forall (fun e => dirty e = true) (xref f1)).
    { rewrite Hx. constructor; [reflexivity | apply objectsLayout_dirty]. }
    assert (Hne : xref f1 <> []) by (rewrite Hx; discriminate).
    assert (Htext : xrefText (xref f1) = wholeTableText (xref f1)).
    { unfold xrefText, wholeTableText. rewrite (segments_all_dirty _ Hdirty Hne).
      unfold segmentText, entriesText. cbn [map fst snd concatenate foldr].
      rewrite drop_0. unfold Size. rewrite firstn_all, append_nil_r. reflexivity. }
    rewrite Htext. unfold Flush, closeHandle, WriteString.
    cbn [osfile isOpen contents writer xref]. rewrite Ho.
    cbn [osfile isOpen contents writer xref].
    split; [|split; reflexivity].
    rewrite <- append_assoc. fold (written f1). rewrite Hw, Hx.
    rewrite !append_assoc. reflexivity.
Qed.

Lemma new_file_layout_witness :
  exists f1 f2,
    addAll NewFile [Null] = Ok (f1, [NewObjectNumber 1 0]) /\
    Close f1 = Some (Ok f2) /\
    writer f2 = "" /\ isOpen (osfile f2) = false.
Proof.
  destruct (new_file_layout [Null]) as (f1 & f2 & Hadd & Hc & _ & Hw & Ho).
  - simpl. lia.
  - exists f1, f2. split; [exact Hadd|]. split; [exact Hc|]. split; [exact Hw | exact Ho].
Defined.

(** ** Reservations in a row, and writing twice *)

Lemma reserveAll_distinct_witness :
  exists f' ons,
    reserveAll twoDeletedFile [Null; Null; Null] = Ok (f', ons) /\
    NoDup (map number ons).
Proof.
  destruct (reserveAll twoDeletedFile [Null; Null; Null]) as [[f' ons]|p] eqn:Hr;
    [|discriminate Hr].
  exists f', ons. split; [reflexivity|].
  apply (reserveAll_distinct [Null; Null; Null] twoDeletedFile f' ons Hr).
  - simpl. lia.
  - intros j e Hj He.
    destruct j as [|[|[|j]]]; simpl in He; try lia; try discriminate He;
      injection He as <-; reflexivity.
  - simpl. lia.
Defined.

Lemma second_write_refused_witness :
  exists f',
    AddObjectAt twoReserved (NewObjectNumber 1 0) Null = Ok f' /\
    AddObjectAt f' (NewObjectNumber 1 0) Null = Panic AlreadyWritten.
Proof.
  destruct (AddObjectAt twoReserved (NewObjectNumber 1 0) Null) as [f'|p] eqn:Ha;
    [|discriminate Ha].
  exists f'. split; [reflexivity|].
  apply (second_write_refused twoReserved f' (NewObjectNumber 1 0) Null Null).
  - apply (run_reachable [CallReserve Null; CallReserve Null] NewFile);
      [apply reach_NewFile | reflexivity].
  - reflexivity.
  - exact Ha.
Defined.

(** ** Edge cases of the allocator and of [Close] *)

(** X20.  [ReserveObjectNumber] never panics, on any table: it returns the
    index at which its search stopped (modulo [2^32]), leaves the file and the
    writer alone, and keeps the size of the table or raises it by one. *)
Theorem ReserveObjectNumber_never_panics (f : file) (o : Object) :
  exists f' on,
    ReserveObjectNumber f o = Ok (f', on) /\
    number on = uint32 (nextUnusedOf (xref f)) /\
    osfile f' = osfile f /\ writer f' = writer f /\
    (Size (xref f) <= Size (xref f') <= S (Size (xref f)))%nat.
Proof.
  destruct (ReserveObjectNumber_succeeds f o) as [[f' on] Hr].
  exists f', on. split; [exact Hr|].
  destruct (ReserveObjectNumber_Ok _ _ _ _ Hr)
    as (Hos & Hw & Hnum & [(_ & _ & Hx)|(entry & head & _ & _ & _ & _ & Hx)]);
    (split; [exact Hnum|]); (split; [exact Hos|]); (split; [exact Hw|]);
    rewrite Hx; unfold Size.
  - rewrite length_app. simpl. lia.
  - rewrite !length_assign. lia.
Qed.

(** X21.  Deleting object number 0 with the generation of slot 0 is
    accepted: slot 0 stays free, its generation goes up by one unless it is
    65535, and its [byteOffset], the head of the free list, becomes 0 whatever
    it was; no other slot changes. *)
Theorem DeleteObject_slot0 (f : file) (object : ObjectNumber) (head : xrefEntry) :
  number object = 0 ->
  xref f !! 0%nat = Some head ->
  objGeneration object = generation head ->
  DeleteObject f object =
    Ok (setXref (<[0%nat := mkXrefEntry 0 (bump (generation head)) false true]> (xref f)) f).
Proof.
  intros Hnum Hhead Hgen.
  assert (Hn : N.to_nat (number object) = 0%nat) by (rewrite Hnum; reflexivity).
  destruct (DeleteObject_match f object head) as [f' Hd];
    [rewrite Hn; exact Hhead | exact Hgen |].
  rewrite Hd. f_equal.
  destruct (DeleteObject_Ok _ _ _ Hd)
    as (entry & head' & Hentry & _ & _ & Hos & Hw & Hlen & Hother & _ & Heq0).
  rewrite Hn, Hhead in Hentry. injection Hentry as <-.
  specialize (Heq0 Hn). rewrite Hnum in Heq0. unfold deleted in Heq0.
  destruct f' as [x' os' w']. simpl in *. unfold setXref. subst os' w'.
  f_equal. apply list_eq. intros j.
  pose proof (lookup_lt_Some _ _ _ Hhead) as Hlt.
  destruct (decide (j = 0%nat)) as [->|Hj].
  - rewrite list_lookup_insert_eq by exact Hlt. exact Heq0.
  - rewrite list_lookup_insert_ne by congruence. apply Hother; lia.
Qed.

Lemma DeleteObject_slot0_witness :
  DeleteObject twoDeletedFile (NewObjectNumber 0 65535) =
    Ok (setXref (<[0%nat := mkXrefEntry 0 (bump 65535) false true]> (xref twoDeletedFile))
                twoDeletedFile).
Proof.
  apply (DeleteObject_slot0 twoDeletedFile (NewObjectNumber 0 65535)
           (mkXrefEntry 1 65535 false true)); reflexivity.
Defined.

(** X22.  [Close] never panics and does not touch the table.  On an open
    file it flushes everything: afterwards the file holds what it held, what
    was pending in the writer and the index, the writer is empty and the
    handle is closed. *)
Theorem Close_flushes (f : file) :
  exists f',
    Close f = Some (Ok f') /\
    xref f' = xref f /\ isOpen (osfile f') = false /\
    (isOpen (osfile f) = true ->
       contents (osfile f') = written f ++ xrefText (xref f) /\ writer f' = "").
Proof.
  eexists. split; [apply Close_returns|].
  split; [simpl; rewrite xref_Flush; reflexivity|].
  split; [reflexivity|].
  intros Hopen. unfold Flush, WriteString, written.
  cbn [osfile isOpen contents writer xref closeHandle]. rewrite Hopen.
  cbn [osfile isOpen contents writer xref]. rewrite append_assoc.
  split; reflexivity.
Qed.

Lemma Close_flushes_witness :
  exists f',
    Close twoReserved = Some (Ok f') /\
    contents (osfile f') = written twoReserved ++ xrefText (xref twoReserved) /\
    writer f' = "".
Proof.
  destruct (Close_flushes twoReserved) as (f' & Hc & _ & _ & Hopen).
  exists f'. split; [exact Hc|]. apply Hopen. reflexivity.
Defined.

(** * [TestFile] *)

Lemma testNumber_succ (obj gen : N) (k : nat) :
  testNumber ((obj + 1) mod 2 ^ 32) ((gen + 1) mod 2 ^ 16) k = testNumber obj gen (S k).
Proof.
  unfold testNumber. rewrite !N.Div0.add_mod_idemp_l.
  replace (obj + 1 + N.of_nat k) with (obj + N.of_nat (S k)) by lia.
  replace (gen + 1 + N.of_nat k) with (gen + N.of_nat (S k)) by lia.
  reflexivity.
Qed.

Lemma TestFile_run_from (cs : list call) (obj gen : N) :
  obj < 2 ^ 32 -> gen < 2 ^ 16 ->
  snd (TestFile_run (mkTestFile obj gen) cs) =
    map (testNumber obj gen) (seq 0 (reservations cs)).
Proof.
  revert obj gen. induction cs as [|c cs IH]; intros obj gen Hobj Hgen; [reflexivity|].
  assert (Hstep :
            snd (let '(f2, ons) :=
                   TestFile_run (mkTestFile ((obj + 1) mod 2 ^ 32) ((gen + 1) mod 2 ^ 16)) cs
                 in (f2, NewObjectNumber obj gen :: ons)) =
            map (testNumber obj gen) (seq 0 (S (reservations cs)))).
  { specialize (IH ((obj + 1) mod 2 ^ 32) ((gen + 1) mod 2 ^ 16)).
    destruct (TestFile_run _ cs) as [f2 ons]. cbn [snd] in *.
    rewrite IH by (apply N.mod_lt; discriminate).
    cbn [seq map]. f_equal.
    - unfold testNumber. rewrite !N.add_0_r, !N.mod_small by assumption. reflexivity.
    - rewrite <- seq_shift, map_map. apply map_ext. intros k. apply testNumber_succ. }
  destruct c as [o|on o|o|on|]; cbn [TestFile_run reservations].
  - exact Hstep.
  - apply IH; assumption.
  - exact Hstep.
  - apply IH; assumption.
  - apply IH; assumption.
Qed.

(** X11.  On [NewTestFile(obj, gen)], whatever the calls in between, the
    [k]-th call that reserves an object number ([ReserveObjectNumber] or
    [AddObject]), counted from 0, returns the number [obj + k] modulo [2^32]
    with the generation [gen + k] modulo [2^16]; [AddObjectAt], [DeleteObject]
    and [Close] change nothing. *)
Theorem TestFile_numbers (cs : list call) (obj gen : N) :
  obj < 2 ^ 32 -> gen < 2 ^ 16 ->
  snd (TestFile_run (NewTestFile obj gen) cs) =
    map (testNumber obj gen) (seq 0 (reservations cs)).
Proof. apply TestFile_run_from. Qed.

Lemma TestFile_numbers_witness :
  snd (TestFile_run (NewTestFile 4294967295 65535)
         [CallAddObject Null; CallDeleteObject (NewObjectNumber 7 7); CallReserve Null]) =
  [NewObjectNumber 4294967295 65535; NewObjectNumber 0 0].
Proof.
  apply (TestFile_numbers
           [CallAddObject Null; CallDeleteObject (NewObjectNumber 7 7); CallReserve Null]
           4294967295 65535); reflexivity.
Defined.

(** X12.  The numbers that a [TestFile] hands out are pairwise distinct as
    long as there are at most [2^32] reservations. *)
Theorem TestFile_numbers_distinct (cs : list call) (obj gen : N) :
  obj < 2 ^ 32 -> gen < 2 ^ 16 ->
  N.of_nat (reservations cs) <= 2 ^ 32 ->
  NoDup (map number (snd (TestFile_run (NewTestFile obj gen) cs))).
Proof.
  intros Hobj Hgen Hcount. rewrite TestFile_run_from by assumption.
  rewrite map_map. cbn [testNumber number].
  change (NoDup ((fun k => (obj + N.of_nat k) mod 2 ^ 32) <$> seq 0 (reservations cs))).
  apply NoDup_fmap_2_strong; [|apply NoDup_seq].
  intros a b Ha Hb Heq.
  apply elem_of_seq in Ha, Hb.
  assert (Hmod : forall k, (k < reservations cs)%nat ->
            (obj + N.of_nat k) mod 2 ^ 32 =
            if obj + N.of_nat k <? 2 ^ 32 then obj + N.of_nat k
            else obj + N.of_nat k - 2 ^ 32).
  { intros k Hk. destruct (N.ltb_spec (obj + N.of_nat k) (2 ^ 32)) as [Hlt|Hge].
    - apply N.mod_small. exact Hlt.
    - symmetry. apply (N.mod_unique _ _ 1); lia. }
  rewrite (Hmod a), (Hmod b) in Heq by lia.
  destruct (N.ltb_spec (obj + N.of_nat a) (2 ^ 32));
    destruct (N.ltb_spec (obj + N.of_nat b) (2 ^ 32)); lia.
Qed.

Lemma TestFile_numbers_distinct_witness :
  NoDup (map number (snd (TestFile_run (NewTestFile 4294967295 0)
                            [CallAddObject Null; CallReserve Null]))).
Proof.
  apply TestFile_numbers_distinct; [reflexivity | reflexivity | discriminate].
Defined.

(** * Character classes *)

Lemma below_spec (n : nat) (P : N -> bool) :
  below n P = true -> forall b, b < N.of_nat n -> P b = true.
Proof.
  induction n as [|n IH]; intros H b Hb; [lia|].
  simpl in H. apply andb_true_iff in H. destruct H as [Hn Hrest].
  destruct (N.eq_dec b (N.of_nat n)) as [->|Hne]; [exact Hn|].
  apply IH; [exact Hrest | lia].
Qed.

Lemma length_characterTypes : length characterTypes = 256%nat.
Proof. reflexivity. Qed.

Lemma hasType_outside (class b : N) : 256 <= b -> hasType class b = false.
Proof.
  intros Hb. unfold hasType.
  rewrite (lookup_ge_None_2 characterTypes (N.to_nat b)); [reflexivity|].
  rewrite length_characterTypes. lia.
Qed.

(** X13.  Every byte is in exactly one of the three classes: it is regular
    exactly when it is neither white space nor a delimiter, and no byte is
    both white space and a delimiter. *)
Theorem character_classes_partition (b : N) :
  b < 256 ->
  IsRegular b = negb (IsWhiteSpace b) && negb (IsDelimiter b) /\
  IsWhiteSpace b && IsDelimiter b = false.
Proof.
  intros Hb.
  pose proof (below_spec 256
    (fun b => Bool.eqb (IsRegular b) (negb (IsWhiteSpace b) && negb (IsDelimiter b)) &&
              negb (IsWhiteSpace b && IsDelimiter b)) eq_refl b Hb) as H.
  cbv beta in H. apply andb_true_iff in H. destruct H as [H1 H2].
  split; [apply Bool.eqb_prop; exact H1 | apply negb_true_iff; exact H2].
Qed.

Lemma character_classes_partition_witness :
  IsRegular 65 = negb (IsWhiteSpace 65) && negb (IsDelimiter 65) /\
  IsWhiteSpace 65 && IsDelimiter 65 = false.
Proof. apply character_classes_partition. reflexivity. Defined.

(** X14.  After [init] the white-space characters are exactly the
    characters of the string ["\000\t\n\f\r "] and the delimiters exactly those
    of ["%()/<>[]{}"]: the entries set for one class are not overwritten for
    another. *)
Theorem character_classes_members (b : N) :
  IsWhiteSpace b = existsb (N.eqb b) (codes whiteSpaceCharacters) /\
  IsDelimiter b = existsb (N.eqb b) (codes delimiterCharacters).
Proof.
  destruct (N.lt_ge_cases b 256) as [Hb|Hb].
  - pose proof (below_spec 256
      (fun b => Bool.eqb (IsWhiteSpace b) (existsb (N.eqb b) (codes whiteSpaceCharacters)) &&
                Bool.eqb (IsDelimiter b) (existsb (N.eqb b) (codes delimiterCharacters)))
      eq_refl b Hb) as H.
    cbv beta in H. apply andb_true_iff in H. destruct H as [H1 H2].
    split; apply Bool.eqb_prop; assumption.
  - unfold IsWhiteSpace, IsDelimiter. rewrite !hasType_outside by exact Hb.
    split; symmetry; apply not_true_is_false; intros H;
      apply existsb_exists in H; destruct H as (c & Hin & Heq);
      apply N.eqb_eq in Heq; subst c;
      vm_compute in Hin; repeat (destruct Hin as [Hin|Hin]; [subst b; vm_compute in Hb; congruence|]);
      exact Hin.
Qed.

(** X15.  Letters and digits of every kind are regular characters: a byte
    for which [IsAlpha], [IsDigit], [IsOctalDigit] or [IsHexDigit] holds is
    neither white space nor a delimiter. *)
Theorem letters_and_digits_regular (b : N) :
  IsAlpha b || IsDigit b || IsOctalDigit b || IsHexDigit b = true ->
  IsRegular b = true.
Proof.
  intros H.
  assert (Hb : b < 256).
  { unfold IsAlpha, IsDigit, IsOctalDigit, IsHexDigit in H.
    repeat (apply orb_true_iff in H; destruct H as [H|H]);
      apply andb_true_iff in H; destruct H as [_ H]; apply N.leb_le in H; lia. }
  pose proof (below_spec 256
    (fun b => implb (IsAlpha b || IsDigit b || IsOctalDigit b || IsHexDigit b) (IsRegular b))
    eq_refl b Hb) as Himp.
  cbv beta in Himp. rewrite H in Himp. exact Himp.
Qed.

Lemma letters_and_digits_regular_witness : IsRegular 102 = true.
Proof. apply letters_and_digits_regular. reflexivity. Defined.

(** X16.  An octal digit is a digit, a digit is a hexadecimal digit, no
    letter is a digit, and a hexadecimal digit is a digit or one of the
    letters [a] to [f], [A] to [F]. *)
Theorem digit_classes (b : N) :
  (IsOctalDigit b = true -> IsDigit b = true) /\
  (IsDigit b = true -> IsHexDigit b = true) /\
  IsAlpha b && IsDigit b = false /\
  IsHexDigit b =
    IsDigit b || (IsAlpha b && (((97 <=? b) && (b <=? 102)) || ((65 <=? b) && (b <=? 70)))).
Proof.
  unfold IsOctalDigit, IsDigit, IsHexDigit, IsAlpha.
  destruct (N.leb_spec 48 b), (N.leb_spec b 55), (N.leb_spec b 57),
    (N.leb_spec 97 b), (N.leb_spec b 102), (N.leb_spec b 122),
    (N.leb_spec 65 b), (N.leb_spec b 70), (N.leb_spec b 90);
    cbn; repeat split; intros; try reflexivity; try assumption; try lia; try discriminate.
Qed.

Lemma digit_classes_witness : IsDigit 55 = true /\ IsHexDigit 57 = true.
Proof.
  split.
  - apply (proj1 (digit_classes 55)). reflexivity.
  - apply (proj1 (proj2 (digit_classes 57))). reflexivity.
Defined.

(** X17.  For a value below 16, [HexDigit] returns the hexadecimal digit of
    that value, a digit or an upper-case letter [A] to [F] and never a
    lower-case one; for a value of 16 or more it panics with "value out of
    range". *)
Theorem HexDigit_digit (b : N) :
  (b < 16 ->
   exists c, HexDigit b = Some c /\
             IsHexDigit c = true /\ c < 97 /\ hexValue c = b) /\
  (16 <= b -> HexDigit b = None).
Proof.
  split.
  - intros Hb.
    pose proof (below_spec 16
      (fun b => match HexDigit b with
                | Some c => IsHexDigit c && (c <? 97) && (hexValue c =? b)
                | None => false
                end) eq_refl b Hb) as H.
    cbv beta in H. destruct (HexDigit b) as [c|]; [|discriminate H].
    apply andb_true_iff in H. destruct H as [H H3].
    apply andb_true_iff in H. destruct H as [H1 H2].
    exists c. split; [reflexivity|]. split; [exact H1|].
    split; [apply N.ltb_lt; exact H2 | apply N.eqb_eq; exact H3].
  - intros Hb. unfold HexDigit.
    destruct (N.ltb_spec b 10); [lia|]. destruct (N.ltb_spec b 16); [lia | reflexivity].
Qed.

Lemma HexDigit_digit_witness :
  (exists c, HexDigit 11 = Some c /\ IsHexDigit c = true /\ c < 97 /\ hexValue c = 11) /\
  HexDigit 16 = None.
Proof.
  split.
  - apply (proj1 (HexDigit_digit 11)). reflexivity.
  - apply (proj2 (HexDigit_digit 16)). discriminate.
Defined.

(** * [Null] and [Array] *)

Lemma pdfObject_induction (P : pdfObject -> Prop) :
  P NullObject ->
  (forall a, Forall P a -> P (ArrayObject a)) ->
  forall o, P o.
Proof.
  intros Hnull Harray. fix IH 1. intros [|a]; [exact Hnull|].
  apply Harray. induction a as [|o a IHa]; constructor; [apply IH | exact IHa].
Qed.

Lemma serializeFrom_later (serialize : pdfObject -> string) (i j : nat)
    (rest : list pdfObject) :
  serializeFrom serialize (S i) rest = serializeFrom serialize (S j) rest.
Proof.
  revert i j. induction rest as [|o rest IH]; intros i j; [reflexivity|].
  cbn [serializeFrom Nat.eqb]. rewrite (IH (S i) (S j)). reflexivity.
Qed.

Lemma serializeFrom_concat (serialize : pdfObject -> string) (o : pdfObject)
    (rest : list pdfObject) :
  serialize o ++ serializeFrom serialize 1 rest =
    String.concat " " (map serialize (o :: rest)).
Proof.
  revert o. induction rest as [|o' rest IH]; intros o.
  - cbn. apply append_nil_r.
  - change (String.concat " " (map serialize (o :: o' :: rest)))
      with (serialize o ++ " " ++ String.concat " " (map serialize (o' :: rest))).
    rewrite <- (IH o'). cbn [serializeFrom Nat.eqb].
    rewrite (serializeFrom_later serialize 1 0 rest). reflexivity.
Qed.

(** X18.  [Array.Serialize] writes the elements between brackets and with
    one space between consecutive elements: nothing but the brackets for an
    empty array, no space before the first element or after the last. *)
Theorem Array_Serialize_joined (a : list pdfObject) :
  Array_Serialize a = "[" ++ String.concat " " (map pdfObject_Serialize a) ++ "]".
Proof.
  unfold Array_Serialize. cbn [pdfObject_Serialize].
  destruct a as [|o rest]; [reflexivity|].
  do 2 f_equal.
  change (serializeFrom pdfObject_Serialize 0 (o :: rest))
    with ("" ++ pdfObject_Serialize o ++ serializeFrom pdfObject_Serialize 1 rest).
  apply serializeFrom_concat.
Qed.

Lemma cloneInto_map (clone : pdfObject -> pdfObject) (newArray rest : list pdfObject) :
  cloneInto clone newArray rest = (newArray ++ map clone rest)%list.
Proof.
  revert newArray. induction rest as [|o rest IH]; intros newArray; cbn [cloneInto map].
  - rewrite app_nil_r. reflexivity.
  - rewrite IH. unfold Array_Add. rewrite <- app_assoc. reflexivity.
Qed.

Lemma pdfObject_Clone_same (o : pdfObject) : pdfObject_Clone o = o.
Proof.
  induction o as [|a IH] using pdfObject_induction; [reflexivity|].
  cbn [pdfObject_Clone]. rewrite cloneInto_map. cbn [NewArray app]. f_equal.
  induction IH as [|o a Ho _ IHa]; [reflexivity|].
  cbn [map]. rewrite Ho, IHa. reflexivity.
Qed.

(** X19.  [Clone] copies an object with all it contains: the clone of an
    array has the clones of the elements in the same order, so it has the same
    size as the array and is serialized to the same bytes, at every depth of
    nesting. *)
Theorem Array_Clone_same (a : list pdfObject) :
  Array_Clone a = map pdfObject_Clone a /\
  Array_Size (Array_Clone a) = Array_Size a /\
  Array_Serialize (Array_Clone a) = Array_Serialize a /\
  (forall o, pdfObject_Serialize (pdfObject_Clone o) = pdfObject_Serialize o).
Proof.
  assert (Hmap : Array_Clone a = map pdfObject_Clone a).
  { unfold Array_Clone. rewrite cloneInto_map. reflexivity. }
  assert (Hsame : Array_Clone a = a).
  { rewrite Hmap. induction a as [|o a IH]; [reflexivity|].
    cbn [map]. rewrite pdfObject_Clone_same. f_equal. apply IH.
    unfold Array_Clone. rewrite cloneInto_map. reflexivity. }
  split; [exact Hmap|]. rewrite Hsame.
  split; [reflexivity|]. split; [reflexivity|].
  intros o. rewrite pdfObject_Clone_same. reflexivity.
Qed.
